(** * svglinkify: a shallow embedding of [svglinkify.py]

    The program reads an SVG file, asks Inkscape for the bounding boxes of its
    objects, exports it to PDF, and edits the QDF form of that PDF so that every
    [<a>] element of the SVG becomes a link annotation.

    Conventions of the embedding:
    - [str] and [bytes] values are lists of characters ([bytes]); the texts
      are taken to be ASCII, where the classes of [re] on [str] and on
      [bytes] differ by the separators 28 to 31 only;
    - Python [float]s are binary64 primitive floats, so arithmetic rounds as
      the interpreter does;
    - Python [int]s are [N] (every integer of the program is non-negative);
    - a [dict] is an association list in insertion order ([dict]);
    - a raised exception is the left summand of [result];
    - the [re] patterns of the program are terms of [regex], run by a
      backtracking matcher. *)

From Stdlib Require Import List Ascii String NArith ZArith Bool Lia.
From Stdlib Require Import Floats DecimalString DecimalN.
From Stdlib Require Import Permutation.
Import ListNotations.

#[local] Set Warnings "-inexact-float".
#[local] Open Scope N_scope.

(** ** Bytes *)

Definition bytes := list ascii.

Definition b (s : string) : bytes := list_ascii_of_string s.
Arguments b s%_string.

Definition nl : ascii := "010"%char.

(** [bq s] is [s] with every single quote turned into a double quote. *)
Definition bq (s : string) : bytes :=
  map (fun c => if Ascii.eqb c "'"%char then "034"%char else c) (b s).
Arguments bq s%_string.

(** [lines l] is the text whose lines are [l], each ended by a newline. *)
Fixpoint lines (l : list string) : bytes :=
  match l with
  | [] => []
  | s :: t => b s ++ nl :: lines t
  end.

Definition bytes_eqb (x y : bytes) : bool :=
  if list_eq_dec ascii_dec x y then true else false.

Fixpoint starts_with (p s : bytes) : bool :=
  match p, s with
  | [], _ => true
  | c :: p', d :: s' => Ascii.eqb c d && starts_with p' s'
  | _ :: _, [] => false
  end.

Definition code (c : ascii) : N := N_of_ascii c.

Definition is_digit (c : ascii) : bool := (48 <=? code c) && (code c <=? 57).

(** ASCII whitespace, as [bytes.strip] and the pattern class [\s] take it. *)
Definition is_space (c : ascii) : bool :=
  (code c =? 32) || ((9 <=? code c) && (code c <=? 13)).

(** The pattern class [\s] of a [str] pattern, on ASCII: it also takes the
    four separators 28 to 31. *)
Definition is_uspace (c : ascii) : bool :=
  is_space c || ((28 <=? code c) && (code c <=? 31)).

(** The pattern class [\w]: letters, digits and the underscore. *)
Definition is_word (c : ascii) : bool :=
  is_digit c
  || ((65 <=? code c) && (code c <=? 90))
  || ((97 <=? code c) && (code c <=? 122))
  || (code c =? 95).

Fixpoint lstrip (s : bytes) : bytes :=
  match s with
  | c :: t => if is_space c then lstrip t else s
  | [] => []
  end.

Definition rstrip (s : bytes) : bytes := rev (lstrip (rev s)).

Definition strip (s : bytes) : bytes := rstrip (lstrip s).

(** [s.replace(old, new)] for a one-character [old]. *)
Fixpoint replace_char (old : ascii) (new : bytes) (s : bytes) : bytes :=
  match s with
  | [] => []
  | c :: t =>
      if Ascii.eqb c old then new ++ replace_char old new t
      else c :: replace_char old new t
  end.

(** [b"%d" % n] for a non-negative [n]. *)
Definition dec (n : N) : bytes :=
  list_ascii_of_string (NilZero.string_of_uint (N.to_uint n)).

(** [int(s)] on a match of [\d+]. *)
Definition int_of_digits (s : bytes) : N :=
  fold_left (fun acc c => 10 * acc + (code c - 48)) s 0.

(** ** Exceptions *)

Inductive exn : Type :=
| Error (msg : bytes)       (* the program's own [class Error(Exception)] *)
| AttributeError            (* a method called on the [None] of a failed search *)
| ValueError                (* [float()] on a bad literal, [max()] of an empty list *)
| KeyError                  (* a missing dictionary key *)
| ZeroDivisionError         (* float division by zero *)
| ReError                   (* [re.error]: a bad escape in a replacement template *)
| IndexError.               (* an unknown group name in a replacement template *)

Definition result (A : Type) : Type := (exn + A)%type.

Definition ret {A} (x : A) : result A := inr x.
Definition raise {A} (e : exn) : result A := inl e.

Definition bind {A B} (m : result A) (f : A -> result B) : result B :=
  match m with
  | inl e => inl e
  | inr x => f x
  end.

Declare Scope result_scope.
Delimit Scope result_scope with result.
Notation "x <- m ;; k" := (bind m (fun x => k))
  (at level 61, m at next level, right associativity) : result_scope.
Notation "' p <- m ;; k" := (bind m (fun x => match x with p => k end))
  (at level 61, p pattern, m at next level, right associativity) : result_scope.
#[local] Open Scope result_scope.

(** [for x in l: acc = f(acc, x)], stopping at the first exception. *)
Fixpoint foldM {A S} (f : S -> A -> result S) (l : list A) (s : S) : result S :=
  match l with
  | [] => ret s
  | x :: t => s' <- f s x ;; foldM f t s'
  end.

Fixpoint mapM {A B} (f : A -> result B) (l : list A) : result (list B) :=
  match l with
  | [] => ret []
  | x :: t => y <- f x ;; ys <- mapM f t ;; ret (y :: ys)
  end.

(** ** Programs that print and start processes

    A program yields the events it caused, in order, and its result; an
    exception ends it and keeps the events that came before. *)

Inductive command : Type :=
| InkscapeQuery                 (* [inkscape -S input.svg] *)
| InkscapeExport                (* [inkscape --export-type=pdf ...], to a temporary file *)
| QpdfToQdf                     (* [qpdf --qdf ...], to a temporary file *)
| FixQdf (stdin : bytes)        (* [fix-qdf], fed the edited QDF *)
| QpdfWrite (qdf : bytes).      (* [qpdf ... output.pdf] on the temporary file
                                   that holds [qdf]: writes the output file *)

Inductive event : Type :=
| Popen (cmd : command)
| Print (line : bytes).         (* a line on the standard error *)

Definition prog (A : Type) : Type := (list event * result A)%type.

Definition pret {A} (x : A) : prog A := ([], inr x).
Definition lift {A} (r : result A) : prog A := ([], r).
Definition emit (e : event) : prog unit := ([e], inr tt).

Definition pbind {A B} (m : prog A) (f : A -> prog B) : prog B :=
  match m with
  | (l, inl e) => (l, inl e)
  | (l, inr x) => let (l', r) := f x in (l ++ l', r)
  end.

Declare Scope prog_scope.
Delimit Scope prog_scope with prog.
Notation "x <~ m ;; k" := (pbind m (fun x => k))
  (at level 61, m at next level, right associativity) : prog_scope.
#[local] Open Scope prog_scope.

Fixpoint foldP {A S} (f : S -> A -> prog S) (l : list A) (s : S) : prog S :=
  match l with
  | [] => pret s
  | x :: t => s' <~ f s x ;; foldP f t s'
  end.

(** ** Dictionaries *)

Section Dict.
Context {K V : Type} (eqb : K -> K -> bool).

Definition dict := list (K * V).

Fixpoint dict_get (d : dict) (k : K) : option V :=
  match d with
  | [] => None
  | (k', v) :: t => if eqb k k' then Some v else dict_get t k
  end.

(** [d[k] = v]: a present key keeps its place, a new key goes last. *)
Fixpoint dict_set (d : dict) (k : K) (v : V) : dict :=
  match d with
  | [] => [(k, v)]
  | (k', v') :: t => if eqb k k' then (k', v) :: t else (k', v') :: dict_set t k v
  end.

(** [d[k]] *)
Definition dict_item (d : dict) (k : K) : result V :=
  match dict_get d k with
  | Some v => ret v
  | None => raise KeyError
  end.

Definition dict_mem (d : dict) (k : K) : bool :=
  match dict_get d k with Some _ => true | None => false end.

Definition dict_values (d : dict) : list V := map snd d.
Definition dict_keys (d : dict) : list K := map fst d.
End Dict.

Arguments dict : clear implicits.

(** ** Regular expressions

    The constructs the program's patterns use, with the semantics of Python's
    backtracking [re] engine: alternatives are tried left to right, [Star] is
    greedy and [LazyStar] is not, [Bol] and [Eol] are [^] and [$] under
    [re.MULTILINE], [WordB] is [\b]. *)

Inductive regex : Type :=
| Eps
| Chr (cls : ascii -> bool)
| Bol
| Eol
| WordB
| Seq (r1 r2 : regex)
| Alt (r1 r2 : regex)
| Star (r : regex)
| LazyStar (r : regex)
| Group (i : nat) (r : regex).

Definition Plus (r : regex) : regex := Seq r (Star r).
Definition Opt (r : regex) : regex := Alt r Eps.

Fixpoint lit (s : bytes) : regex :=
  match s with
  | [] => Eps
  | c :: t => Seq (Chr (Ascii.eqb c)) (lit t)
  end.

Definition seqs (l : list regex) : regex := fold_right Seq Eps l.

Definition dq : ascii := "034"%char.

Definition any : ascii -> bool := fun _ => true.          (* [.] under DOTALL *)
Definition not_nl : ascii -> bool := fun c => negb (Ascii.eqb c nl).  (* [.] *)
Definition but (x : ascii) : ascii -> bool := fun c => negb (Ascii.eqb c x).
Definition digit_or_dot : ascii -> bool :=
  fun c => is_digit c || Ascii.eqb c "."%char.            (* [[0-9.]] *)

(** The matcher's position: the character before it (for [^] and [\b]), the
    text from it on, and the groups captured so far. *)
Record mstate : Type := MState {
  prev : option ascii;
  rest : bytes;
  caps : dict nat bytes
}.

Definition at_bol (st : mstate) : bool :=
  match prev st with None => true | Some c => Ascii.eqb c nl end.

Definition at_eol (st : mstate) : bool :=
  match rest st with [] => true | c :: _ => Ascii.eqb c nl end.

Definition word_before (st : mstate) : bool :=
  match prev st with None => false | Some c => is_word c end.

Definition word_after (st : mstate) : bool :=
  match rest st with [] => false | c :: _ => is_word c end.

Definition or_else {A} (x y : option A) : option A :=
  match x with Some _ => x | None => y end.

Definition consumed (st st' : mstate) : bytes :=
  firstn (List.length (rest st) - List.length (rest st')) (rest st).

(** [run r st k] matches [r] at [st] and hands the position after it to the
    continuation [k]; [None] makes the matcher backtrack. An iteration of a
    starred pattern has to consume a character, so the length of the
    remaining text bounds the number of iterations. *)
Fixpoint run (r : regex) (st : mstate) (k : mstate -> option mstate)
  : option mstate :=
  match r with
  | Eps => k st
  | Chr cls =>
      match rest st with
      | c :: t => if cls c then k (MState (Some c) t (caps st)) else None
      | [] => None
      end
  | Bol => if at_bol st then k st else None
  | Eol => if at_eol st then k st else None
  | WordB => if xorb (word_before st) (word_after st) then k st else None
  | Seq r1 r2 => run r1 st (fun st1 => run r2 st1 k)
  | Alt r1 r2 => or_else (run r1 st k) (run r2 st k)
  | Star r1 =>
      (fix loop (n : nat) (st : mstate) : option mstate :=
         match n with
         | O => k st
         | S n' =>
             or_else
               (run r1 st (fun st1 =>
                  if (List.length (rest st1) <? List.length (rest st))%nat
                  then loop n' st1 else None))
               (k st)
         end) (List.length (rest st)) st
  | LazyStar r1 =>
      (fix loop (n : nat) (st : mstate) : option mstate :=
         match n with
         | O => k st
         | S n' =>
             or_else
               (k st)
               (run r1 st (fun st1 =>
                  if (List.length (rest st1) <? List.length (rest st))%nat
                  then loop n' st1 else None))
         end) (List.length (rest st)) st
  | Group i r1 =>
      run r1 st (fun st1 =>
        k (MState (prev st1) (rest st1)
             (dict_set Nat.eqb (caps st1) i (consumed st st1))))
  end.

(** A match object: the matched text and the groups that took part. *)
Record rmatch : Type := RMatch {
  group0 : bytes;
  groups : dict nat bytes
}.

(** [m.group(i)] for [i >= 1]; [None] when the group did not take part. *)
Definition group (m : rmatch) (i : nat) : option bytes :=
  dict_get Nat.eqb (groups m) i.

(** A match of [r] starting exactly at the position ([p], [s]). *)
Definition match_here (r : regex) (p : option ascii) (s : bytes) : option rmatch :=
  match run r (MState p s []) Some with
  | Some st => Some (RMatch (consumed (MState p s []) st) (caps st))
  | None => None
  end.

Fixpoint search_from (r : regex) (p : option ascii) (s : bytes) : option rmatch :=
  match match_here r p s with
  | Some m => Some m
  | None =>
      match s with
      | [] => None
      | c :: t => search_from r (Some c) t
      end
  end.

(** [re.search(r, s)] *)
Definition re_search (r : regex) (s : bytes) : option rmatch :=
  search_from r None s.

(** The text cut into the characters outside every match and the successive
    non-overlapping matches, leftmost first. None of the program's patterns
    matches the empty text; an empty match is passed over. *)
Inductive piece : Type :=
| Keep (c : ascii)
| Hit (m : rmatch).

Fixpoint re_split (r : regex) (skip : nat) (p : option ascii) (s : bytes)
  : list piece :=
  match s with
  | [] => []
  | c :: t =>
      match skip with
      | S k => re_split r k (Some c) t
      | O =>
          match match_here r p s with
          | Some m =>
              match List.length (group0 m) with
              | O => Keep c :: re_split r 0 (Some c) t
              | S k => Hit m :: re_split r k (Some c) t
              end
          | None => Keep c :: re_split r 0 (Some c) t
          end
      end
  end.

Definition pieces (r : regex) (s : bytes) : list piece := re_split r 0 None s.

Definition hits (l : list piece) : list rmatch :=
  flat_map (fun p => match p with Keep _ => [] | Hit m => [m] end) l.

(** [re.finditer(r, s)] *)
Definition re_finditer (r : regex) (s : bytes) : list rmatch := hits (pieces r s).

(** [re.sub(r, repl, s)] with a callable [repl]; a callable that returns
    [None] splices nothing in place of the match. *)
Definition re_sub_fn (r : regex) (repl : rmatch -> option bytes) (s : bytes) : bytes :=
  flat_map (fun p =>
    match p with
    | Keep c => [c]
    | Hit m => match repl m with Some t => t | None => [] end
    end) (pieces r s).

(** [re.sub(r, t, s)] with a template [t] whose escapes are already expanded
    and which refers to no group. *)
Definition re_sub (r : regex) (t : bytes) (s : bytes) : bytes :=
  re_sub_fn r (fun _ => Some t) s.

(** [x in s] on bytes *)
Fixpoint contains (x s : bytes) : bool :=
  starts_with x s || match s with [] => false | _ :: t => contains x t end.


(** ** Floats

    [float(s)] on a text: surrounding whitespace is dropped; then come an
    optional sign and either [inf], [infinity] or [nan] in any case, or a
    decimal numeral (digits with at most one dot, at least one digit, single
    underscores between digits, an optional exponent). Anything else is a
    [ValueError]. The value is the binary64 nearest to the decimal, ties to
    even, as CPython's correctly rounded conversion gives it. *)

Fixpoint scan_decimal (s : bytes) (acc : Z) (frac : nat) (dot : bool) (ndig : nat)
  : option (Z * nat) :=
  match s with
  | [] => match ndig with O => None | S _ => Some (acc, frac) end
  | c :: t =>
      if is_digit c then
        scan_decimal t (10 * acc + (Z.of_N (code c) - 48))%Z
          (if dot then S frac else frac) dot (S ndig)
      else if Ascii.eqb c "."%char then
        if dot then None else scan_decimal t acc frac true ndig
      else None
  end.

Definition round_half_even (n d : Z) : Z :=
  let q := (n / d)%Z in
  match (2 * (n mod d) ?= d)%Z with
  | Lt => q
  | Gt => (q + 1)%Z
  | Eq => if Z.even q then q else (q + 1)%Z
  end.

(** The binary64 nearest to [n / d], for [0 <= n] and [0 < d]. *)
Definition float_of_ratio (n d : Z) : float :=
  if (n =? 0)%Z then 0%float else
  let e0 := (Z.log2 n - Z.log2 d - 53)%Z in
  let q0 := if (0 <=? e0)%Z then (n / (d * 2 ^ e0))%Z else (n * 2 ^ (- e0) / d)%Z in
  let e1 := if (q0 <? 2 ^ 53)%Z then e0 else (e0 + 1)%Z in
  let e := Z.max e1 (-1074) in
  let m := if (0 <=? e)%Z then round_half_even n (d * 2 ^ e)
           else round_half_even (n * 2 ^ (- e)) d in
  Z.ldexp (PrimFloat.of_uint63 (Uint63.of_Z m)) e.

Definition lower (c : ascii) : ascii :=
  if (65 <=? code c) && (code c <=? 90) then ascii_of_N (code c + 32) else c.

Definition split_sign (s : bytes) : bool * bytes :=
  match s with
  | c :: t =>
      if Ascii.eqb c "-"%char then (true, t)
      else if Ascii.eqb c "+"%char then (false, t)
      else (false, s)
  | [] => (false, s)
  end.

(** An underscore is legal between two digits only; legal ones are dropped. *)
Fixpoint drop_underscores (p : option ascii) (s : bytes) : option bytes :=
  match s with
  | [] => Some []
  | c :: t =>
      if Ascii.eqb c "_"%char then
        match p, t with
        | Some d, e :: _ =>
            if is_digit d && is_digit e then drop_underscores (Some c) t else None
        | _, _ => None
        end
      else option_map (cons c) (drop_underscores (Some c) t)
  end.

Fixpoint span (cls : ascii -> bool) (s : bytes) : bytes * bytes :=
  match s with
  | c :: t => if cls c then let (x, y) := span cls t in (c :: x, y) else ([], s)
  | [] => ([], [])
  end.

Definition parse_exponent (s : bytes) : option Z :=
  let (neg, t) := split_sign s in
  match t with
  | [] => None
  | _ :: _ =>
      if forallb is_digit t
      then Some (if neg then (- Z.of_N (int_of_digits t))%Z else Z.of_N (int_of_digits t))
      else None
  end.

(** A numeral as [(n, e)], standing for [n * 10 ^ e]. *)
Definition parse_number (s : bytes) : option (Z * Z) :=
  let (m, r) := span digit_or_dot s in
  match scan_decimal m 0%Z O false O with
  | None => None
  | Some (n, k) =>
      match r with
      | [] => Some (n, (- Z.of_nat k)%Z)
      | c :: t =>
          if Ascii.eqb (lower c) "e"%char then
            match parse_exponent t with
            | Some e => Some (n, (e - Z.of_nat k)%Z)
            | None => None
            end
          else None
      end
  end.

Definition py_float (s : bytes) : result float :=
  let (neg, t) := split_sign (strip s) in
  let sign := fun x : float => if neg then (- x)%float else x in
  let low := map lower t in
  if bytes_eqb low (b "inf") || bytes_eqb low (b "infinity") then ret (sign infinity)
  else if bytes_eqb low (b "nan") then ret nan
  else
    match drop_underscores None t with
    | None => raise ValueError
    | Some u =>
        match parse_number u with
        | None => raise ValueError
        | Some (n, e) =>
            ret (sign (if (0 <=? e)%Z then float_of_ratio (n * 10 ^ e) 1
                       else float_of_ratio n (10 ^ (- e))))
        end
    end.

(** [a / b] on floats: Python raises where IEEE 754 would give an infinity
    or a NaN. *)
Definition py_div (x y : float) : result float :=
  if PrimFloat.eqb y 0%float then raise ZeroDivisionError else ret (x / y)%float.

(** [a > b] on floats *)
Definition gtb (x y : float) : bool := PrimFloat.ltb y x.

Definition is_nan (x : float) : bool := negb (PrimFloat.eqb x x).

(** ** Searching with the program's idioms *)

(** [re.search(r, s)] followed by a method call on the result: the [None] of
    a failed search has no [group], which raises [AttributeError]. *)
Definition search_or_raise (r : regex) (s : bytes) : result rmatch :=
  match re_search r s with
  | Some m => ret m
  | None => raise AttributeError
  end.

(** [m.group(i)] for a group that every match of its pattern fills. *)
Definition grp (m : rmatch) (i : nat) : bytes :=
  match group m i with Some t => t | None => [] end.

(** [\bname\s*=\s*\x22], where [\x22] is the double quote *)
Definition attr_open (name : string) : list regex :=
  [WordB; lit (b name); Star (Chr is_uspace); lit (b "="); Star (Chr is_uspace);
   Chr (Ascii.eqb dq)].

(** [(px|pt|mm|pc|cm|in)] *)
Definition unit_alt : regex :=
  Alt (lit (b "px")) (Alt (lit (b "pt")) (Alt (lit (b "mm"))
    (Alt (lit (b "pc")) (Alt (lit (b "cm")) (lit (b "in")))))).

(** [<svg[^>]*>] *)
Definition svg_tag_re : regex :=
  seqs [lit (b "<svg"); Star (Chr (but ">"%char)); lit (b ">")].

(** [\bwidth\s*=\s*\x22([0-9.]+)(px|pt|mm|pc|cm|in)?\x22], and the same
    for [height] *)
Definition size_re (name : string) : regex :=
  seqs (attr_open name ++
        [Group 1 (Plus (Chr digit_or_dot)); Opt (Group 2 unit_alt); Chr (Ascii.eqb dq)]).

(** [\bviewBox\s*=\s*\x22\s*([0-9.]+)\s+([0-9.]+)\s+([0-9.]+)\s+([0-9.]+)\x22] *)
Definition viewbox_re : regex :=
  seqs (attr_open "viewBox" ++
        [Star (Chr is_uspace);
         Group 1 (Plus (Chr digit_or_dot)); Plus (Chr is_uspace);
         Group 2 (Plus (Chr digit_or_dot)); Plus (Chr is_uspace);
         Group 3 (Plus (Chr digit_or_dot)); Plus (Chr is_uspace);
         Group 4 (Plus (Chr digit_or_dot)); Chr (Ascii.eqb dq)]).

(** ** Document scaling (lines 48-81) *)

Definition unit_2_px : dict bytes float :=
  [(b "px", 1%float);
   (b "pt", 1.33333333333333%float);
   (b "mm", 3.7795%float);
   (b "pc", 16%float);
   (b "cm", 37.795%float);
   (b "in", 96%float)].

Record scaling : Type := Scaling {
  svg_viewbox_x : float;
  svg_viewbox_y : float;
  svg_viewbox_w : float;
  svg_viewbox_h : float;
  svg_width_pixels : float;
  svg_height_pixels : float;
  x_scale : float;
  y_scale : float
}.

(** [value, unit = re.search(...).groups()], with [px] for a missing unit. *)
Definition size_attr (name : string) (svg_tag : bytes) : result (bytes * bytes) :=
  m <- search_or_raise (size_re name) svg_tag ;;
  ret (grp m 1, match group m 2 with Some u => u | None => b "px" end).

Definition document_scaling (svg_content : bytes) : result scaling :=
  t <- search_or_raise svg_tag_re svg_content ;;
  let svg_tag := group0 t in
  '(svg_width, svg_width_unit) <- size_attr "width" svg_tag ;;
  '(svg_height, svg_height_unit) <- size_attr "height" svg_tag ;;
  vb <- search_or_raise viewbox_re svg_tag ;;
  vx <- py_float (grp vb 1) ;;
  vy <- py_float (grp vb 2) ;;
  vw <- py_float (grp vb 3) ;;
  vh <- py_float (grp vb 4) ;;
  uw <- dict_item bytes_eqb unit_2_px svg_width_unit ;;
  fw <- py_float svg_width ;;
  let width_pixels := (uw * fw)%float in
  uh <- dict_item bytes_eqb unit_2_px svg_height_unit ;;
  fh <- py_float svg_height ;;
  let height_pixels := (uh * fh)%float in
  xs <- py_div width_pixels vw ;;
  ys <- py_div height_pixels vh ;;
  ret (Scaling vx vy vw vh width_pixels height_pixels xs ys).

(** ** Pages (lines 83-105) *)

Record page : Type := Page {
  page_number : N;
  page_x : float;
  page_y : float;
  page_w : float;
  page_h : float
}.

(** [<inkscape:page\s+(G)>], with the group [G] being [[^>]*] *)
Definition page_re : regex :=
  seqs [lit (b "<inkscape:page"); Plus (Chr is_uspace);
        Group 1 (Star (Chr (but ">"%char))); lit (b ">")].

(** [\bname\s*=\s*\x22([^\x22]+)] *)
Definition value_re (name : string) : regex :=
  seqs (attr_open name ++ [Group 1 (Plus (Chr (but dq)))]).

(** [re.findall(r, s)] for a pattern with one group *)
Definition re_findall1 (r : regex) (s : bytes) : list bytes :=
  map (fun m => grp m 1) (re_finditer r s).

Fixpoint enumerate {A} (i : N) (l : list A) : list (N * A) :=
  match l with
  | [] => []
  | x :: t => (i, x) :: enumerate (i + 1) t
  end.

Definition add_page (sc : scaling) (pages : dict N page) (ip : N * bytes)
  : result (dict N page) :=
  let (pi, p) := ip in
  mx <- search_or_raise (value_re "x") p ;;
  my <- search_or_raise (value_re "y") p ;;
  mw <- search_or_raise (value_re "width") p ;;
  mh <- search_or_raise (value_re "height") p ;;
  x <- py_float (grp mx 1) ;;
  y <- py_float (grp my 1) ;;
  w <- py_float (grp mw 1) ;;
  h <- py_float (grp mh 1) ;;
  ret (dict_set N.eqb pages (pi + 1)
         (Page (pi + 1) (x * x_scale sc) (y * y_scale sc)
               (w * x_scale sc) (h * y_scale sc))).

Definition load_pages (sc : scaling) (svg_content : bytes) : result (dict N page) :=
  pages <- foldM (add_page sc) (enumerate 0 (re_findall1 page_re svg_content)) [] ;;
  match pages with
  | [] =>
      ret [(1, Page 1 (svg_viewbox_x sc * x_scale sc) (svg_viewbox_y sc * y_scale sc)
                     (svg_viewbox_w sc * x_scale sc) (svg_viewbox_h sc * y_scale sc))]
  | _ :: _ => ret pages
  end.

(** ** Objects (lines 107-124) *)

Record page_loc : Type := PageLoc {
  loc_page : N;
  loc_x : float;
  loc_y : float
}.

Record object : Type := Object {
  obj_id : bytes;
  obj_x : float;
  obj_y : float;
  obj_w : float;
  obj_h : float;
  page_locs : list page_loc
}.

(** [^([^,]+),([0-9.]+),([0-9.]+),([0-9.]+),([0-9.]+)$] *)
Definition bbox_re : regex :=
  seqs [Bol; Group 1 (Plus (Chr (but ","%char))); lit (b ",");
        Group 2 (Plus (Chr digit_or_dot)); lit (b ",");
        Group 3 (Plus (Chr digit_or_dot)); lit (b ",");
        Group 4 (Plus (Chr digit_or_dot)); lit (b ",");
        Group 5 (Plus (Chr digit_or_dot)); Eol].

Definition add_object (objects : dict bytes object) (i : rmatch)
  : result (dict bytes object) :=
  x <- py_float (grp i 2) ;;
  y <- py_float (grp i 3) ;;
  w <- py_float (grp i 4) ;;
  h <- py_float (grp i 5) ;;
  ret (dict_set bytes_eqb objects (grp i 1) (Object (grp i 1) x y w h [])).

(** [out] is the standard output of [inkscape -S]. *)
Definition load_objects (out : bytes) : result (dict bytes object) :=
  foldM add_object (re_finditer bbox_re out) [].

(** ** Placement (lines 15-23 and 126-138) *)

Record rect : Type := Rect {
  rx : float;
  ry : float;
  rw : float;
  rh : float
}.

Definition page_rect (p : page) : rect :=
  Rect (page_x p) (page_y p) (page_w p) (page_h p).

Definition obj_rect (o : object) : rect :=
  Rect (obj_x o) (obj_y o) (obj_w o) (obj_h o).

Definition x1 (a : rect) : float := rx a.
Definition y1 (a : rect) : float := ry a.
Definition x2 (a : rect) : float := (rx a + rw a)%float.
Definition y2 (a : rect) : float := (ry a + rh a)%float.

Definition intersected (a c : rect) : bool :=
  if gtb (x1 a) (x2 c) || PrimFloat.ltb (x2 a) (x1 c)
     || gtb (y1 a) (y2 c) || PrimFloat.ltb (y2 a) (y1 c)
  then false
  else true.

Definition local_loc (p : page) (o : object) : page_loc :=
  PageLoc (page_number p) (obj_x o - page_x p) (obj_y o - page_y p).

Definition append_loc (o : object) (l : page_loc) : object :=
  Object (obj_id o) (obj_x o) (obj_y o) (obj_w o) (obj_h o) (page_locs o ++ [l]).

(** The inner loop: one page against every object. *)
Definition place_page (p : page) (objects : dict bytes object) : dict bytes object :=
  map (fun kv : bytes * object =>
         let (k, o) := kv in
         if intersected (page_rect p) (obj_rect o)
         then (k, append_loc o (local_loc p o))
         else (k, o))
      objects.

Definition placement (pages : dict N page) (objects : dict bytes object)
  : dict bytes object :=
  fold_left (fun objs p => place_page p objs) (dict_values pages) objects.

(** ** Links (lines 140-151) *)

(** [<a\s([^>]+)>] *)
Definition anchor_re : regex :=
  seqs [lit (b "<a"); Chr is_uspace; Group 1 (Plus (Chr (but ">"%char))); lit (b ">")].

(** [href.replace('(', '%28').replace(')', '%29')] *)
Definition escape_parens (href : bytes) : bytes :=
  replace_char ")"%char (b "%29") (replace_char "("%char (b "%28") href).

Definition add_link (links : dict bytes bytes) (a : bytes) : dict bytes bytes :=
  match re_search (value_re "id") a, re_search (value_re "href") a with
  | Some id, Some href => dict_set bytes_eqb links (grp id 1) (escape_parens (grp href 1))
  | _, _ => links
  end.

Definition load_links (svg_content : bytes) : dict bytes bytes :=
  fold_left add_link (re_findall1 anchor_re svg_content) [].

(** ** Reading the QDF (lines 202-231) *)

Definition digits : regex := Plus (Chr is_digit).   (* [\d+] *)

(** [\n\n%%.*\n(\d+) (\d+) obj\n<<\n(?:^ .*\n)*>>\nendobj$] *)
Definition object_block_re : regex :=
  seqs [lit (nl :: nl :: b "%%"); Star (Chr not_nl); lit [nl];
        Group 1 digits; lit (b " "); Group 2 digits; lit (b " obj" ++ nl :: b "<<" ++ [nl]);
        Star (seqs [Bol; lit (b " "); Star (Chr not_nl); lit [nl]]);
        lit (b ">>" ++ nl :: b "endobj"); Eol].

(** The link annotations that Inkscape wrote, as (id, generation) pairs. The
    program keeps them in a set, of which it only uses the members. *)
Definition find_deleted_annots (qdf_content : bytes) : list (N * N) :=
  flat_map (fun m =>
    if contains (b "/Type /Annot") (group0 m) && contains (b "/Subtype /Link") (group0 m)
    then [(int_of_digits (grp m 1), int_of_digits (grp m 2))]
    else [])
    (re_finditer object_block_re qdf_content).

(** [\n\nxref\n\d+ (\d+)$] *)
Definition xref_count_re : regex :=
  seqs [lit (nl :: nl :: b "xref" ++ [nl]); digits; lit (b " "); Group 1 digits; Eol].

Definition first_free_id (qdf_content : bytes) : result N :=
  m <- search_or_raise xref_count_re qdf_content ;;
  ret (int_of_digits (grp m 1)).

Record pdf_page : Type := PdfPage {
  pdf_obj_id : N;
  pdf_obj_gen : N
}.

(** [^%% Page (\d+)\n%%[^\n]*\n(\d+)\s+(\d+)\s+obj\n.*?^endobj$], with
    [re.MULTILINE | re.DOTALL] *)
Definition pdf_page_re : regex :=
  seqs [Bol; lit (b "%% Page "); Group 1 digits; lit (nl :: b "%%");
        Star (Chr not_nl); lit [nl];
        Group 2 digits; Plus (Chr is_space); Group 3 digits; Plus (Chr is_space);
        lit (b "obj" ++ [nl]); LazyStar (Chr any); Bol; lit (b "endobj"); Eol].

Definition load_pdf_pages (qdf_content : bytes) : dict N pdf_page :=
  fold_left (fun d m =>
    dict_set N.eqb d (int_of_digits (grp m 1))
      (PdfPage (int_of_digits (grp m 2)) (int_of_digits (grp m 3))))
    (re_finditer pdf_page_re qdf_content) [].

(** ** Synthesis of the annotations (lines 233-282) *)

Definition px_to_pt : float := 0.75%float.

(** The action of a link. [GoTo] holds the arguments of
    [b'/GoTo /D [ %d %d R /XYZ %f %f 0 ]' % (...)], [URI] the bytes
    [b'/URI /URI (%s)' % href]. *)
Inductive action : Type :=
| GoTo (page_obj_id page_obj_gen : N) (x y : float)
| URI (body : bytes).

Definition uri_action (link_href : bytes) : action :=
  URI (b "/URI /URI (" ++ link_href ++ b ")").

(** The arguments of the [%] that writes one annotation object: its id, its
    action and the four numbers of its [/Rect]. *)
Record annot : Type := Annot {
  annot_id : N;
  annot_action : action;
  annot_rect : float * float * float * float
}.

Record synth : Type := Synth {
  next_object_id : N;
  pdf_page_annots : dict N (list N);
  pdf_annot_objects : list annot
}.

(** [max(l, key=lambda q: q['y'])]: the first element that none exceeds. *)
Fixpoint max_y_from (best : page_loc) (l : list page_loc) : page_loc :=
  match l with
  | [] => best
  | q :: t => max_y_from (if gtb (loc_y q) (loc_y best) then q else best) t
  end.

Definition max_y (l : list page_loc) : result page_loc :=
  match l with
  | [] => raise ValueError
  | q :: t => ret (max_y_from q t)
  end.

(** [d.get(k, [])] *)
Definition get_list (d : dict N (list N)) (k : N) : list N :=
  match dict_get N.eqb d k with Some l => l | None => [] end.

(** [d[k].append(v)] on a [defaultdict(list)] *)
Definition append_at (d : dict N (list N)) (k v : N) : dict N (list N) :=
  dict_set N.eqb d k (get_list d k ++ [v]).

(** [link_href[1:]] *)
Definition destination_id (link_href : bytes) : bytes := tl link_href.

Section Synthesis.
Variable pages : dict N page.
Variable objects : dict bytes object.
Variable pdf_pages : dict N pdf_page.

(** Lines 242-260: the action of a link, or the warning that drops it. *)
Definition link_action (link_href : bytes) : result (bytes + action) :=
  if starts_with (b "#") link_href then
    match dict_get bytes_eqb objects (destination_id link_href) with
    | None => ret (inl (b "warn: link target not found: " ++ link_href))
    | Some target =>
        pl <- max_y (page_locs target) ;;
        p <- dict_item N.eqb pages (loc_page pl) ;;
        pp <- dict_item N.eqb pdf_pages (page_number p) ;;
        ret (inr (GoTo (pdf_obj_id pp) (pdf_obj_gen pp)
                    (loc_x pl * px_to_pt)
                    ((page_h p - loc_y pl) * px_to_pt)))
    end
  else ret (inr (uri_action link_href)).

Definition link_rect (p : page) (link_object : object) (locs : page_loc)
  : float * float * float * float :=
  ((loc_x locs * px_to_pt,
    (page_h p - loc_y locs) * px_to_pt,
    (loc_x locs + obj_w link_object) * px_to_pt,
    (page_h p - loc_y locs - obj_h link_object) * px_to_pt))%float.

(** Lines 263-282: one annotation for one place of the link's object. *)
Definition add_annot (act : action) (link_object : object) (st : synth)
    (locs : page_loc) : result synth :=
  p <- dict_item N.eqb pages (loc_page locs) ;;
  ret (Synth (next_object_id st + 1)
         (append_at (pdf_page_annots st) (loc_page locs) (next_object_id st))
         (pdf_annot_objects st
            ++ [Annot (next_object_id st) act (link_rect p link_object locs)])).

(** The body of the loop over [links.items()]. *)
Definition add_link_annots (st : synth) (link : bytes * bytes) : prog synth :=
  let (link_id, link_href) := link in
  if negb (dict_mem bytes_eqb objects link_id) then pret st else
  a <~ lift (link_action link_href) ;;
  match a with
  | inl warning => _ <~ emit (Print warning) ;; pret st
  | inr act =>
      lift (link_object <- dict_item bytes_eqb objects link_id ;;
            foldM (add_annot act link_object) (page_locs link_object) st)
  end.

Definition synthesize (links : dict bytes bytes) (first_id : N) : prog synth :=
  foldP add_link_annots links (Synth first_id [] []).
End Synthesis.

(** ** Writing the annotation objects *)

Definition pad6 (s : bytes) : bytes := repeat "0"%char (6 - List.length s) ++ s.

(** [n] is the magnitude in millionths. *)
Definition fixed6 (neg : bool) (n : Z) : bytes :=
  (if neg then b "-" else []) ++ dec (Z.to_N (n / 1000000)) ++ b "."
  ++ pad6 (dec (Z.to_N (n mod 1000000))).

(** [b'%f' % x]: six decimals, the exact binary value rounded to nearest,
    ties to even. *)
Definition fmt_f (x : float) : bytes :=
  match Prim2SF x with
  | S754_nan => b "nan"
  | S754_infinity s => if s then b "-inf" else b "inf"
  | S754_zero s => fixed6 s 0
  | S754_finite s m e =>
      fixed6 s (if (0 <=? e)%Z then (Zpos m * 2 ^ e * 1000000)%Z
                else round_half_even (Zpos m * 1000000) (2 ^ (- e)))
  end.

Definition render_action (a : action) : bytes :=
  match a with
  | GoTo i g x y =>
      b "/GoTo /D [ " ++ dec i ++ b " " ++ dec g ++ b " R /XYZ " ++ fmt_f x ++ b " "
      ++ fmt_f y ++ b " 0 ]"
  | URI body => body
  end.

(** The bytes appended to [pdf_annot_objects] (lines 266-279). *)
Definition render_annot (a : annot) : bytes :=
  let '(r1, r2, r3, r4) := annot_rect a in
  nl :: b "%QDF: ignore_newline" ++ nl :: dec (annot_id a) ++ b " 0 obj" ++ nl
  :: b "<<" ++ nl :: b "  /Type /Annot /Subtype /Link /Border [ 0 0 0 ]"
  ++ b " /A << /S " ++ render_action (annot_action a) ++ b " >>"
  ++ b " /Rect [ " ++ fmt_f r1 ++ b " " ++ fmt_f r2 ++ b " " ++ fmt_f r3 ++ b " "
  ++ fmt_f r4 ++ b " ]" ++ nl :: b ">>" ++ nl :: b "endobj" ++ [nl; nl].

(** ** Replacement templates

    [re.sub] expands the backslash escapes of a template given as bytes
    before it looks for a match. The patterns that the program substitutes
    have no group, so a template may only refer to the whole match. The
    errors are those of CPython 3.12. *)

Inductive titem : Type :=
| TChar (c : ascii)
| TWhole.                       (* [\g<0>] *)

Inductive tstate : Type :=
| TNormal
| TEsc                          (* after a backslash *)
| TG                            (* after [\g] *)
| TName (name : bytes)          (* after [\g<] *)
| TOct (digits : list N) (more : nat)   (* after [\0] *)
| TDig1 (c : N)                 (* after a backslash and a digit 1-9 *)
| TDig2 (c e : N).              (* after a backslash and two digits *)

Definition is_octal (c : ascii) : bool := (48 <=? code c) && (code c <=? 55).

Definition is_letter (c : ascii) : bool :=
  ((65 <=? code c) && (code c <=? 90)) || ((97 <=? code c) && (code c <=? 122)).

Definition escapes : dict ascii N :=
  [("a"%char, 7); ("b"%char, 8); ("f"%char, 12); ("n"%char, 10); ("r"%char, 13);
   ("t"%char, 9); ("v"%char, 11); ("\"%char, 92)].

Definition octal_value (ds : list N) : N := fold_left (fun a d => 8 * a + d) ds 0.

Definition is_identifier (name : bytes) : bool :=
  match name with
  | c :: t => (is_letter c || Ascii.eqb c "_"%char) && forallb is_word t
  | [] => false
  end.

(** The end of a group name [\g<name>]. *)
Definition group_ref (name : bytes) : result titem :=
  match name with
  | [] => raise ReError
  | _ :: _ =>
      if forallb is_digit name then
        if int_of_digits name =? 0 then ret TWhole else raise ReError
      else if is_identifier name then raise IndexError
      else raise ReError
  end.

Fixpoint parse_template (st : tstate) (t : bytes) : result (list titem) :=
  match t with
  | [] =>
      match st with
      | TNormal => ret []
      | TOct ds _ => ret [TChar (ascii_of_N (octal_value ds mod 256))]
      | _ => raise ReError
      end
  | c :: t' =>
      let normal :=
        if Ascii.eqb c "\"%char then parse_template TEsc t'
        else l <- parse_template TNormal t' ;; ret (TChar c :: l) in
      match st with
      | TNormal => normal
      | TEsc =>
          if Ascii.eqb c "g"%char then parse_template TG t'
          else if Ascii.eqb c "0"%char then parse_template (TOct [] 2) t'
          else if is_digit c then parse_template (TDig1 (code c - 48)) t'
          else
            match dict_get Ascii.eqb escapes c with
            | Some n => l <- parse_template TNormal t' ;; ret (TChar (ascii_of_N n) :: l)
            | None =>
                if is_letter c then raise ReError
                else l <- parse_template TNormal t' ;; ret (TChar "\"%char :: TChar c :: l)
            end
      | TG => if Ascii.eqb c "<"%char then parse_template (TName []) t' else raise ReError
      | TName name =>
          if Ascii.eqb c ">"%char
          then i <- group_ref name ;; l <- parse_template TNormal t' ;; ret (i :: l)
          else parse_template (TName (name ++ [c])) t'
      | TOct ds (S more) =>
          if is_octal c then parse_template (TOct (ds ++ [code c - 48]) more) t'
          else l <- normal ;; ret (TChar (ascii_of_N (octal_value ds mod 256)) :: l)
      | TOct ds O =>
          l <- normal ;; ret (TChar (ascii_of_N (octal_value ds mod 256)) :: l)
      | TDig1 o1 =>
          if is_digit c then parse_template (TDig2 o1 (code c - 48)) t' else raise ReError
      | TDig2 o1 o2 =>
          if (o1 <=? 7) && (o2 <=? 7) && is_octal c
             && (octal_value [o1; o2; code c - 48] <=? 255)
          then l <- parse_template TNormal t' ;;
               ret (TChar (ascii_of_N (octal_value [o1; o2; code c - 48])) :: l)
          else raise ReError
      end
  end.

Definition expand (items : list titem) (m : rmatch) : bytes :=
  flat_map (fun i => match i with TChar c => [c] | TWhole => group0 m end) items.

(** [re.sub(r, template, s)] for a pattern [r] without groups *)
Definition re_sub_template (r : regex) (template s : bytes) : result bytes :=
  items <- parse_template TNormal template ;;
  ret (re_sub_fn r (fun m => Some (expand items m)) s).

(** [re.sub(r, repl, s)] with a callable that may raise *)
Definition re_sub_fnM (r : regex) (repl : rmatch -> result (option bytes)) (s : bytes)
  : result bytes :=
  parts <- mapM (fun p =>
             match p with
             | Keep c => ret [c]
             | Hit m => o <- repl m ;; ret (match o with Some t => t | None => [] end)
             end) (pieces r s) ;;
  ret (List.concat parts).

(** ** Editing the QDF (lines 284-315) *)

(** [/Annots\s+\[([^\]]+)\]] *)
Definition annots_re : regex :=
  seqs [lit (b "/Annots"); Plus (Chr is_space); lit (b "[");
        Group 1 (Plus (Chr (but "]"%char))); lit (b "]")].

(** [def load_existing_annots(m): raw_annots = m.group(1)]. The assignment
    binds a name local to the callback (the function has no [nonlocal]), and
    the callback returns [None]. *)
Definition load_existing_annots (m : rmatch) : option bytes :=
  let raw_annots := grp m 1 in
  None.

(** [\b%d %d R] with the two numbers filled in *)
Definition ref_re (obj_id gen_id : N) : regex :=
  seqs [WordB; lit (dec obj_id ++ b " " ++ dec gen_id ++ b " R")].

(** [^<<] *)
Definition open_re : regex := seqs [Bol; lit (b "<<")].

(** [^xref$] *)
Definition xref_re : regex := seqs [Bol; lit (b "xref"); Eol].

(** [^%% Page (\d+)$.*?^endobj$], with [re.MULTILINE | re.DOTALL] *)
Definition page_block_re : regex :=
  seqs [Bol; lit (b "%% Page "); Group 1 digits; Eol; LazyStar (Chr any);
        Bol; lit (b "endobj"); Eol].

(** [b'\n%d 0 R\n' % obj_id] *)
Definition ref_line (obj_id : N) : bytes := nl :: dec obj_id ++ b " 0 R" ++ [nl].

(** The value of [raw_annots] when line 297 tests it: it starts empty, the
    references to deleted annotations are taken out of it, the references to
    the page's new annotations are added, and it is stripped. *)
Definition new_raw_annots (deleted : list (N * N)) (ids : list N) : bytes :=
  let raw_annots := [] in
  let raw_annots :=
    fold_left (fun raw (d : N * N) => re_sub (ref_re (fst d) (snd d)) [] raw)
      deleted raw_annots in
  let raw_annots := fold_left (fun raw obj_id => raw ++ ref_line obj_id) ids raw_annots in
  strip raw_annots.

Definition replace_annots_for_page (deleted : list (N * N))
    (page_annots : dict N (list N)) (m : rmatch) : result bytes :=
  let page_number := int_of_digits (grp m 1) in
  let m' := re_sub_fn annots_re load_existing_annots (group0 m) in
  let raw_annots := new_raw_annots deleted (get_list page_annots page_number) in
  match raw_annots with
  | [] => ret m'
  | _ :: _ => re_sub_template open_re (b "<<\n/Annots [ " ++ raw_annots ++ b " ]") m'
  end.

Definition rewrite_pages (deleted : list (N * N)) (page_annots : dict N (list N))
    (qdf_content : bytes) : result bytes :=
  re_sub_fnM page_block_re
    (fun m => r <- replace_annots_for_page deleted page_annots m ;; ret (Some r))
    qdf_content.

Definition splice_objects (annot_objects : list bytes) (qdf_content : bytes)
  : result bytes :=
  re_sub_template xref_re (List.concat annot_objects ++ b "\nxref") qdf_content.

Definition edit_qdf (deleted : list (N * N)) (page_annots : dict N (list N))
    (annot_objects : list bytes) (qdf_content : bytes) : result bytes :=
  q <- rewrite_pages deleted page_annots qdf_content ;;
  splice_objects annot_objects q.

(** ** The whole program (lines 26-351) *)

Record proc : Type := Proc {
  proc_out : bytes;
  proc_err : bytes;
  returncode : N
}.

(** What the program finds around it: the tools, its arguments, the text of
    the SVG file (which is there and readable), and what each process
    answers. *)
Record world : Type := World {
  has_qpdf : bool;
  has_fix_qdf : bool;
  has_inkscape : bool;
  argv : list bytes;
  svg_content : bytes;
  inkscape_query : proc;
  inkscape_export : proc;
  qpdf_to_qdf : proc;
  qdf_content : bytes;
  fix_qdf : bytes -> proc;
  qpdf_write : bytes -> proc
}.

Definition check (failed : bool) (msg : bytes) : prog unit :=
  lift (if failed then raise (Error msg) else ret tt).

(** ['ERROR' in err or ('WARNING' not in err and proc.returncode != 0)] *)
Definition inkscape_failed (p : proc) : bool :=
  contains (b "ERROR") (proc_err p)
  || (negb (contains (b "WARNING") (proc_err p)) && negb (returncode p =? 0)).

Definition main (w : world) : prog unit :=
  _ <~ check (negb (has_qpdf w) || negb (has_fix_qdf w))
         (b "qpdf is missing - please install it before retrying") ;;
  _ <~ check (negb (has_inkscape w))
         (b "inkscape is missing - please install it before retrying") ;;
  _ <~ check (List.length (argv w) <? 3)%nat
         (b "Usage: " ++ hd [] (argv w) ++ b " input.svg output.pdf [inkscape cli flags ...]") ;;
  sc <~ lift (document_scaling (svg_content w)) ;;
  pages <~ lift (load_pages sc (svg_content w)) ;;
  _ <~ emit (Popen InkscapeQuery) ;;
  _ <~ check (inkscape_failed (inkscape_query w)) (b "inkscape: " ++ proc_err (inkscape_query w)) ;;
  objects <~ lift (load_objects (proc_out (inkscape_query w))) ;;
  let objects := placement pages objects in
  let links := load_links (svg_content w) in
  _ <~ emit (Popen InkscapeExport) ;;
  _ <~ check (inkscape_failed (inkscape_export w)) (b "inkscape: " ++ proc_err (inkscape_export w)) ;;
  _ <~ emit (Popen QpdfToQdf) ;;
  _ <~ check (negb (returncode (qpdf_to_qdf w) =? 0)) (proc_err (qpdf_to_qdf w)) ;;
  let deleted := find_deleted_annots (qdf_content w) in
  first_id <~ lift (first_free_id (qdf_content w)) ;;
  let pdf_pages := load_pdf_pages (qdf_content w) in
  st <~ synthesize pages objects pdf_pages links first_id ;;
  edited <~ lift (edit_qdf deleted (pdf_page_annots st)
                    (map render_annot (pdf_annot_objects st)) (qdf_content w)) ;;
  _ <~ emit (Popen (FixQdf edited)) ;;
  let fixed := fix_qdf w edited in
  _ <~ check (negb (returncode fixed =? 0)) (b "cannot fix the qdf output " ++ proc_err fixed) ;;
  (* [qdf_tmp.read()] has left the position at the end of the temporary file,
     so [qdf_tmp.truncate()] cuts nothing and [qdf_tmp.write] appends. *)
  let qdf_tmp := qdf_content w ++ proc_out fixed in
  _ <~ emit (Popen (QpdfWrite qdf_tmp)) ;;
  check (negb (returncode (qpdf_write w qdf_tmp) =? 0))
    (proc_err (qpdf_write w qdf_tmp)).

(** How the interpreter ends: [Exit0] after a normal return, [Exit1] after
    the handler of [Error] has printed its message and called [exit(1)],
    [Uncaught e] when [e] is no [Error] and reaches the top with a traceback. *)
Inductive ending : Type :=
| Exit0
| Exit1
| Uncaught (e : exn).

Definition dunder_main (w : world) : list event * ending :=
  match main w with
  | (l, inr _) => (l, Exit0)
  | (l, inl (Error msg)) => (l ++ [Print (b "error: " ++ msg)], Exit1)
  | (l, inl e) => (l, Uncaught e)
  end.


(** ** Notions used in the statements *)

(** The order of binary64 numbers as a lexicographic order on integer keys;
    [SFcompare_key] shows that it is the comparison of the floats. *)
Definition lexcmp (k k' : Z * Z * Z) : comparison :=
  let '(a1, a2, a3) := k in
  let '(c1, c2, c3) := k' in
  match (a1 ?= c1)%Z with
  | Eq => match (a2 ?= c2)%Z with Eq => (a3 ?= c3)%Z | r => r end
  | r => r
  end.

Definition key (f : spec_float) : Z * Z * Z :=
  match f with
  | S754_nan => (0, 0, 0)
  | S754_zero _ => (0, 0, 0)
  | S754_infinity true => (-2, 0, 0)
  | S754_infinity false => (2, 0, 0)
  | S754_finite true m e => (-1, - e, - Zpos m)
  | S754_finite false m e => (1, e, Zpos m)
  end%Z.

Definition sf_nan (f : spec_float) : bool :=
  match f with S754_nan => true | _ => false end.

Definition fkey (x : float) : Z * Z * Z := key (Prim2SF x).

(** A rectangle whose far corner is not before its origin. *)
Definition well_formed (a : rect) : Prop :=
  PrimFloat.leb (x1 a) (x2 a) = true /\ PrimFloat.leb (y1 a) (y2 a) = true.

(** The point ([px], [py]) lies in the closed rectangle [a]. *)
Definition inside (a : rect) (px py : float) : bool :=
  PrimFloat.leb (x1 a) px && PrimFloat.leb px (x2 a)
  && PrimFloat.leb (y1 a) py && PrimFloat.leb py (y2 a).

(** The object [o] with the places [l] added to its [page_locs]. *)
Definition with_locs (o : object) (l : list page_loc) : object :=
  Object (obj_id o) (obj_x o) (obj_y o) (obj_w o) (obj_h o) (page_locs o ++ l).

(** The places of [o] on the pages [ps] that it intersects, page by page. *)
Definition places (ps : list page) (o : object) : list page_loc :=
  map (fun p => local_loc p o)
      (filter (fun p => intersected (page_rect p) (obj_rect o)) ps).


(** [k] successive ids from [n] on. *)
Fixpoint nseq (n : N) (k : nat) : list N :=
  match k with
  | O => []
  | S k' => n :: nseq (n + 1) k'
  end.

(** The ids of [numbered] whose place is on page [k]. *)
Definition ids_on_page (k : N) (numbered : list (N * page_loc)) : list N :=
  map fst (filter (fun iq => loc_page (snd iq) =? k) numbered).

Definition no_paren (s : bytes) : Prop :=
  ~ In "("%char s /\ ~ In ")"%char s.

Definition is_error (e : exn) : bool :=
  match e with Error _ => true | _ => false end.

(** [st'] comes from [st] by adding annotation objects, each numbered with
    the next free id. *)
Definition grows (st st' : synth) : Prop :=
  exists new,
    pdf_annot_objects st' = pdf_annot_objects st ++ new
    /\ map annot_id new = nseq (next_object_id st) (List.length new)
    /\ next_object_id st' = next_object_id st + N.of_nat (List.length new).

(** ** Sample inputs *)

(** Two pages side by side and an object that lies across their border. *)
Definition two_pages : dict N page :=
  [(1, Page 1 0 0 10 10); (2, Page 2 10 0 10 10)].

Definition across : dict bytes object :=
  [(b "o", Object (b "o") 8 2 5 5 [])].

(** One page of 100 by 100 pixels with a link source [a] and a target [t]. *)
Definition one_page : dict N page := [(1, Page 1 0 0 100 100)].

Definition source_a : object := Object (b "a") 10 20 30 40 [PageLoc 1 10 20].
Definition target_t : object := Object (b "t") 5 50 10 10 [PageLoc 1 5 50].

Definition placed_objects : dict bytes object :=
  [(b "a", source_a); (b "t", target_t)].

Definition one_pdf_page : dict N pdf_page := [(1, PdfPage 3 0)].


(** A second page placed to the right of and above the first, and a target
    that lies across their border: its local y is 50 on page 1, 80 on page 2. *)
Definition offset_pages : dict N page :=
  [(1, Page 1 0 0 100 100); (2, Page 2 100 (-30) 100 200)].

Definition two_pdf_pages : dict N pdf_page := [(1, PdfPage 3 0); (2, PdfPage 8 0)].

Definition spanning_objects : dict bytes object :=
  placement offset_pages
    [(b "a", Object (b "a") 10 20 30 40 []); (b "t", Object (b "t") 95 50 10 10 [])].

(** An object that lies on no page. *)
Definition stray_objects : dict bytes object :=
  placement one_page
    [(b "a", Object (b "a") 10 20 30 40 []); (b "t", Object (b "t") 500 500 10 10 [])].

(** A small QDF file: a catalog, one page that lists the link annotation 4,
    that annotation, and a cross-reference table of 7 entries. *)
Definition sample_qdf : bytes :=
  lines ["%PDF-1.5"; "%QDF-1.0"; "";
         "%% Original object ID: 1 0"; "1 0 obj"; "<<"; "  /Pages 2 0 R";
         "  /Type /Catalog"; ">>"; "endobj"; "";
         "%% Page 1"; "%% Original object ID: 3 0"; "3 0 obj"; "<<";
         "  /Annots ["; "    4 0 R"; "  ]"; "  /Contents 5 0 R"; "  /Type /Page";
         ">>"; "endobj"; "";
         "%% Original object ID: 4 0"; "4 0 obj"; "<<"; "  /A <<"; "    /S /URI";
         "  >>"; "  /Subtype /Link"; "  /Type /Annot"; ">>"; "endobj"; "";
         "xref"; "0 7"; "0000000000 65535 f "; "trailer <<"; ">>"; "startxref";
         "1234"; "%%EOF"]%string.

(** A QDF file whose page lists the link annotation 4 and the text
    annotation 9. *)
Definition live_qdf : bytes :=
  lines ["%PDF-1.5"; "%QDF-1.0"; "";
         "%% Page 1"; "%% Original object ID: 3 0"; "3 0 obj"; "<<";
         "  /Annots ["; "    4 0 R"; "    9 0 R"; "  ]"; "  /Contents 5 0 R";
         "  /Type /Page"; ">>"; "endobj"; "";
         "%% Original object ID: 4 0"; "4 0 obj"; "<<"; "  /A <<"; "    /S /URI";
         "  >>"; "  /Subtype /Link"; "  /Type /Annot"; ">>"; "endobj"; "";
         "%% Original object ID: 9 0"; "9 0 obj"; "<<"; "  /Contents (note)";
         "  /Subtype /Text"; "  /Type /Annot"; ">>"; "endobj"; "";
         "xref"; "0 10"; "0000000000 65535 f "; "trailer <<"; ">>"; "startxref";
         "1234"; "%%EOF"]%string.

(** The root element of the unit example. *)
Definition units_svg : bytes :=
  bq "<svg width='100mm' height='50' viewBox='0 0 10 10'>".

(** An internal link to an object whose id has parentheses. *)
Definition paren_svg : bytes := bq "<svg><a id='s' href='#t(1)'></a></svg>".

Definition paren_objects : dict bytes object :=
  [(b "s", Object (b "s") 10 20 30 40 [PageLoc 1 10 20]);
   (b "t(1)", Object (b "t(1)") 5 50 10 10 [PageLoc 1 5 50])].

Definition external_svg : bytes := bq "<svg><a id='a' href='http://x/(a)'></a></svg>".





(** A QDF file without any annotation. *)
Definition plain_qdf : bytes :=
  lines ["%QDF-1.0"; "";
         "%% Page 1"; "%% Original object ID: 3 0"; "3 0 obj"; "<<";
         "  /Contents 5 0 R"; "  /Type /Page"; ">>"; "endobj"; "";
         "xref"; "0 7"; "0000000000 65535 f "; "trailer <<"; ">>"; "startxref";
         "1234"; "%%EOF"]%string.

(** The text that a piece stands for. *)
Definition restore (pc : piece) : bytes :=
  match pc with Keep c => [c] | Hit m => group0 m end.

(** ** Further notions *)

(** Every page is stored under its own number, and no number twice. *)
Definition pages_ok (pages : dict N page) : Prop :=
  NoDup (dict_keys pages) /\ forall k p, In (k, p) pages -> page_number p = k.

(** The ids filed under the pages, page after page. *)
Definition filed (d : dict N (list N)) : list N := List.concat (map snd d).

(** A text without backslash. *)
Definition plain (s : bytes) : Prop := ~ In "\"%char s.

(** The page that stands for the whole viewBox when none is declared. *)
Definition viewbox_page (sc : scaling) : page :=
  Page 1 (svg_viewbox_x sc * x_scale sc) (svg_viewbox_y sc * y_scale sc)
         (svg_viewbox_w sc * x_scale sc) (svg_viewbox_h sc * y_scale sc).

(** The page that the declaration [p] gives as page number [k]: its four
    attributes, read as floats and scaled. *)
Definition declared_as (sc : scaling) (k : N) (p : bytes) (pg : page) : Prop :=
  exists mx my mw mh x y w h,
    re_search (value_re "x") p = Some mx
    /\ re_search (value_re "y") p = Some my
    /\ re_search (value_re "width") p = Some mw
    /\ re_search (value_re "height") p = Some mh
    /\ py_float (grp mx 1) = inr x /\ py_float (grp my 1) = inr y
    /\ py_float (grp mw 1) = inr w /\ py_float (grp mh 1) = inr h
    /\ pg = Page k (x * x_scale sc) (y * y_scale sc) (w * x_scale sc) (h * y_scale sc).

(** An SVG with two declared pages and a link between two objects. *)
Definition paged_svg : bytes :=
  bq ("<svg width='200' height='100' viewBox='0 0 200 100'>"
      ++ "<inkscape:page x='0' y='0' width='100' height='100' id='p7'/>"
      ++ "<inkscape:page x='100' y='0' width='100' height='100' id='p3'/>"
      ++ "<a id='a' href='#t'><rect id='r'/></a>"
      ++ "<a id='a' href='http://x/(a)'/></svg>").

Definition paged_out : bytes :=
  lines ["a,10,20,30,40"; "t,95,50,10,10"; "a,11,21,31,41"]%string.

(** * Verification *)

(** ** The order of floats *)

Section FloatOrder.

Lemma SFcompare_key f g :
  SFcompare f g = if sf_nan f || sf_nan g then None else Some (lexcmp (key f) (key g)).
Proof.
  destruct f as [[]|[]| |[] m e], g as [[]|[]| |[] m' e']; simpl; try reflexivity.
  rewrite Z.compare_opp, (Z.compare_antisym e e').
  destruct (e ?= e')%Z; reflexivity.
Qed.

Lemma lexcmp_refl k : lexcmp k k = Eq.
Proof. destruct k as [[k1 k2] k3]; simpl. now rewrite !Z.compare_refl. Qed.

Lemma lexcmp_antisym k k' : lexcmp k' k = CompOpp (lexcmp k k').
Proof.
  destruct k as [[k1 k2] k3], k' as [[j1 j2] j3]; simpl.
  rewrite (Z.compare_antisym k1 j1), (Z.compare_antisym k2 j2), (Z.compare_antisym k3 j3).
  destruct (k1 ?= j1)%Z, (k2 ?= j2)%Z; reflexivity.
Qed.

Ltac lex_cases :=
  repeat match goal with
         | |- context [(?u ?= ?v)%Z] => destruct (Z.compare_spec u v)
         end;
  try lia; try congruence.

Lemma lexcmp_lt_trans k k' k'' :
  lexcmp k k' = Lt -> lexcmp k' k'' <> Gt -> lexcmp k k'' = Lt.
Proof.
  destruct k as [[k1 k2] k3], k' as [[j1 j2] j3], k'' as [[i1 i2] i3]; simpl.
  lex_cases.
Qed.

Lemma lexcmp_le_trans k k' k'' :
  lexcmp k k' <> Gt -> lexcmp k' k'' <> Gt -> lexcmp k k'' <> Gt.
Proof.
  destruct k as [[k1 k2] k3], k' as [[j1 j2] j3], k'' as [[i1 i2] i3]; simpl.
  lex_cases.
Qed.

Lemma is_nan_spec x : is_nan x = sf_nan (Prim2SF x).
Proof.
  unfold is_nan. rewrite eqb_spec. unfold SFeqb. rewrite SFcompare_key.
  destruct (sf_nan (Prim2SF x)); simpl; [reflexivity|]. now rewrite lexcmp_refl.
Qed.

Lemma ltb_key x y :
  PrimFloat.ltb x y =
  negb (is_nan x) && negb (is_nan y) &&
  match lexcmp (fkey x) (fkey y) with Lt => true | _ => false end.
Proof.
  rewrite ltb_spec, !is_nan_spec. unfold SFltb. rewrite SFcompare_key.
  destruct (sf_nan (Prim2SF x)), (sf_nan (Prim2SF y)); reflexivity.
Qed.

Lemma leb_key x y :
  PrimFloat.leb x y =
  negb (is_nan x) && negb (is_nan y) &&
  match lexcmp (fkey x) (fkey y) with Gt => false | _ => true end.
Proof.
  rewrite leb_spec, !is_nan_spec. unfold SFleb. rewrite SFcompare_key.
  destruct (sf_nan (Prim2SF x)), (sf_nan (Prim2SF y)); reflexivity.
Qed.

Lemma ltb_trans x y z :
  PrimFloat.ltb x y = true -> PrimFloat.ltb y z = true -> PrimFloat.ltb x z = true.
Proof.
  rewrite !ltb_key.
  destruct (is_nan x), (is_nan y), (is_nan z); simpl; try discriminate.
  intros H1 H2.
  rewrite (lexcmp_lt_trans (fkey x) (fkey y) (fkey z)); trivial.
  - destruct (lexcmp (fkey x) (fkey y)); congruence.
  - destruct (lexcmp (fkey y) (fkey z)); congruence.
Qed.

Lemma ltb_asym x y : PrimFloat.ltb x y = true -> PrimFloat.ltb y x = false.
Proof.
  rewrite !ltb_key, (lexcmp_antisym (fkey x) (fkey y)).
  destruct (is_nan x), (is_nan y), (lexcmp (fkey x) (fkey y)); simpl; congruence.
Qed.

Lemma leb_not_nan x y :
  PrimFloat.leb x y = true -> is_nan x = false /\ is_nan y = false.
Proof. rewrite leb_key. destruct (is_nan x), (is_nan y); simpl; intuition congruence. Qed.

Lemma ltb_negb_leb x y :
  is_nan x = false -> is_nan y = false ->
  PrimFloat.ltb y x = negb (PrimFloat.leb x y).
Proof.
  intros Hx Hy. rewrite ltb_key, leb_key, Hx, Hy, (lexcmp_antisym (fkey x) (fkey y)).
  destruct (lexcmp (fkey x) (fkey y)); reflexivity.
Qed.

Lemma leb_trans x y z :
  PrimFloat.leb x y = true -> PrimFloat.leb y z = true -> PrimFloat.leb x z = true.
Proof.
  rewrite !leb_key.
  destruct (is_nan x), (is_nan y), (is_nan z); simpl; try discriminate.
  intros H1 H2.
  pose proof (lexcmp_le_trans (fkey x) (fkey y) (fkey z)) as H.
  destruct (lexcmp (fkey x) (fkey y)), (lexcmp (fkey y) (fkey z)), (lexcmp (fkey x) (fkey z));
    try reflexivity; try discriminate; exfalso; apply H; congruence.
Qed.

Lemma leb_refl x : is_nan x = false -> PrimFloat.leb x x = true.
Proof. intros H. now rewrite leb_key, H, lexcmp_refl. Qed.

Lemma leb_total x y :
  is_nan x = false -> is_nan y = false ->
  PrimFloat.leb x y = false -> PrimFloat.leb y x = true.
Proof.
  intros Hx Hy. rewrite !leb_key, Hx, Hy, (lexcmp_antisym (fkey x) (fkey y)).
  destruct (lexcmp (fkey x) (fkey y)); simpl; congruence.
Qed.

End FloatOrder.

(** ** Placement *)

Lemma intersected_true a c :
  intersected a c = true <->
  PrimFloat.ltb (x2 c) (x1 a) = false /\ PrimFloat.ltb (x2 a) (x1 c) = false /\
  PrimFloat.ltb (y2 c) (y1 a) = false /\ PrimFloat.ltb (y2 a) (y1 c) = false.
Proof.
  unfold intersected, gtb.
  destruct (PrimFloat.ltb (x2 c) (x1 a)), (PrimFloat.ltb (x2 a) (x1 c)),
    (PrimFloat.ltb (y2 c) (y1 a)), (PrimFloat.ltb (y2 a) (y1 c)); simpl; intuition congruence.
Qed.

(** Two intervals that do not lie apart share a point: the greater origin. *)
Lemma intervals_meet l1 h1 l2 h2 :
  PrimFloat.leb l1 h1 = true -> PrimFloat.leb l2 h2 = true ->
  PrimFloat.ltb h2 l1 = false -> PrimFloat.ltb h1 l2 = false ->
  exists p, PrimFloat.leb l1 p = true /\ PrimFloat.leb p h1 = true /\
            PrimFloat.leb l2 p = true /\ PrimFloat.leb p h2 = true.
Proof.
  intros W1 W2 A B.
  destruct (leb_not_nan _ _ W1) as [N1 M1], (leb_not_nan _ _ W2) as [N2 M2].
  rewrite (ltb_negb_leb l1 h2) in A by assumption.
  rewrite (ltb_negb_leb l2 h1) in B by assumption.
  apply negb_false_iff in A, B.
  destruct (PrimFloat.leb l1 l2) eqn:E.
  - exists l2. auto using leb_refl.
  - exists l1. auto using leb_refl, leb_total.
Qed.

Lemma intervals_apart l1 h2 p :
  PrimFloat.leb l1 p = true -> PrimFloat.leb p h2 = true -> PrimFloat.ltb h2 l1 = false.
Proof.
  intros A B. pose proof (leb_trans _ _ _ A B) as C.
  destruct (leb_not_nan _ _ C). rewrite ltb_negb_leb by assumption. now rewrite C.
Qed.

Lemma intersected_closed a c :
  well_formed a -> well_formed c ->
  (intersected a c = true <->
   exists px py, inside a px py = true /\ inside c px py = true).
Proof.
  intros [Wax Way] [Wcx Wcy]. rewrite intersected_true. split.
  - intros (A & B & C & D).
    destruct (intervals_meet _ _ _ _ Wax Wcx A B) as (px & P1 & P2 & P3 & P4).
    destruct (intervals_meet _ _ _ _ Way Wcy C D) as (py & Q1 & Q2 & Q3 & Q4).
    exists px, py. unfold inside. now rewrite P1, P2, P3, P4, Q1, Q2, Q3, Q4.
  - intros (px & py & I & J). unfold inside in I, J.
    repeat (apply andb_true_iff in I; destruct I as [I ?]).
    repeat (apply andb_true_iff in J; destruct J as [J ?]).
    repeat split; eapply intervals_apart; eauto.
Qed.

Lemma with_locs_nil o : with_locs o [] = o.
Proof. destruct o; unfold with_locs; simpl. now rewrite app_nil_r. Qed.

Lemma placement_fold ps : forall objects,
  fold_left (fun objs p => place_page p objs) ps objects =
  map (fun kv => (fst kv, with_locs (snd kv) (places ps (snd kv)))) objects.
Proof.
  induction ps as [|p ps IH]; intros objects; simpl.
  - rewrite <- (map_id objects) at 1. apply map_ext. intros [k o]; simpl.
    unfold places; simpl. now rewrite with_locs_nil.
  - rewrite IH. unfold place_page. rewrite map_map. apply map_ext. intros [k o].
    unfold places; simpl.
    destruct (intersected (page_rect p) (obj_rect o)) eqn:E; simpl; [|reflexivity].
    unfold with_locs, append_loc; simpl. now rewrite <- app_assoc.
Qed.

(** Claim C3: the test of [intersected] is the closed one (two well-formed
    rectangles intersect exactly when a point lies in both, borders
    included), the page [0,0,10,10] and the object [10,0,5,5] intersect, and
    placement gives every object one place per page that it intersects, in
    page order, with the object's origin minus the page's origin as local
    coordinates. *)
Theorem placement_intersects_closed
    (a c : rect) (pages : dict N page) (objects : dict bytes object) :
  well_formed a -> well_formed c ->
  (intersected a c = true <->
   exists px py, inside a px py = true /\ inside c px py = true)
  /\ intersected (Rect 0 0 10 10) (Rect 10 0 5 5) = true
  /\ placement pages objects =
     map (fun kv => (fst kv, with_locs (snd kv) (places (dict_values pages) (snd kv))))
         objects
  /\ (forall p o,
        local_loc p o =
        PageLoc (page_number p) (obj_x o - page_x p) (obj_y o - page_y p)).
Proof.
  intros Wa Wc. split; [now apply intersected_closed|].
  split; [vm_compute; reflexivity|].
  split; [apply placement_fold|reflexivity].
Qed.

Lemma placement_intersects_closed_witness :
  well_formed (Rect 0 0 10 10) /\ well_formed (Rect 10 0 5 5)
  /\ intersected (Rect 0 0 10 10) (Rect 10 0 5 5) = true
  /\ map (fun kv => page_locs (snd kv)) (placement two_pages across)
     = [[PageLoc 1 8 2; PageLoc 2 (-2) 2]].
Proof.
  assert (Wa : well_formed (Rect 0 0 10 10)) by (vm_compute; auto).
  assert (Wc : well_formed (Rect 10 0 5 5)) by (vm_compute; auto).
  destruct (placement_intersects_closed _ _ two_pages across Wa Wc) as (_ & E & P & _).
  repeat split; try assumption; try (vm_compute; reflexivity).
Defined.

(** ** Dictionaries *)

Lemma dict_get_set_N {V} (d : dict N V) k v k' :
  dict_get N.eqb (dict_set N.eqb d k v) k' =
  if k' =? k then Some v else dict_get N.eqb d k'.
Proof.
  induction d as [|[k0 v0] d IH]; simpl.
  - reflexivity.
  - destruct (k =? k0) eqn:E; simpl.
    + apply N.eqb_eq in E; subst k0. destruct (k' =? k); reflexivity.
    + rewrite IH. destruct (k' =? k0) eqn:E0; [|reflexivity].
      apply N.eqb_eq in E0; subst k0.
      destruct (k' =? k) eqn:E1; [|reflexivity].
      apply N.eqb_eq in E1; subst. rewrite N.eqb_refl in E. discriminate.
Qed.

Lemma get_list_append_at d k v k' :
  get_list (append_at d k v) k' =
  if k' =? k then get_list d k' ++ [v] else get_list d k'.
Proof.
  unfold append_at, get_list at 1. rewrite dict_get_set_N.
  destruct (k' =? k) eqn:E; [|reflexivity].
  apply N.eqb_eq in E. now subst.
Qed.

(** ** Numbering *)

Lemma nseq_length n k : List.length (nseq n k) = k.
Proof. revert n; induction k; intros; simpl; auto. Qed.

Lemma nseq_app n k j : nseq n (k + j) = nseq n k ++ nseq (n + N.of_nat k) j.
Proof.
  revert n; induction k as [|k IH]; intros n; simpl.
  - now rewrite N.add_0_r.
  - rewrite IH. do 3 f_equal. lia.
Qed.

Lemma nseq_In n k i : In i (nseq n k) -> n <= i < n + N.of_nat k.
Proof.
  revert n; induction k as [|k IH]; intros n; simpl; [tauto|].
  intros [<-|H]; [lia|]. apply IH in H. lia.
Qed.

Lemma nseq_NoDup n k : NoDup (nseq n k).
Proof.
  revert n; induction k as [|k IH]; intros n; simpl; constructor; auto.
  intros H. apply nseq_In in H. lia.
Qed.

(** ** The synthesizer *)

Lemma grows_refl st : grows st st.
Proof. exists []. simpl. rewrite app_nil_r, N.add_0_r. auto. Qed.

Lemma grows_trans st st' st'' : grows st st' -> grows st' st'' -> grows st st''.
Proof.
  intros (n1 & A1 & I1 & X1) (n2 & A2 & I2 & X2). exists (n1 ++ n2).
  rewrite A2, A1, <- app_assoc, map_app, length_app, nseq_app, I1, I2, X1, X2.
  rewrite Nat2N.inj_add. repeat split; auto. lia.
Qed.

Section SynthesisFacts.
Variable pages : dict N page.
Variable objects : dict bytes object.
Variable pdf_pages : dict N pdf_page.

Lemma add_annot_ok act o st q p :
  dict_get N.eqb pages (loc_page q) = Some p ->
  add_annot pages act o st q =
  inr (Synth (next_object_id st + 1)
         (append_at (pdf_page_annots st) (loc_page q) (next_object_id st))
         (pdf_annot_objects st ++ [Annot (next_object_id st) act (link_rect p o q)])).
Proof. intros H. unfold add_annot, dict_item. now rewrite H. Qed.

Lemma add_annot_grows act o st q st' :
  add_annot pages act o st q = inr st' -> grows st st'.
Proof.
  unfold add_annot, dict_item.
  destruct (dict_get N.eqb pages (loc_page q)) as [p|]; simpl; [|discriminate].
  intros E; injection E as <-. eexists [_]; simpl. repeat split; auto.
Qed.

Lemma foldM_add_annot_grows act o locs : forall st st',
  foldM (add_annot pages act o) locs st = inr st' -> grows st st'.
Proof.
  induction locs as [|q locs IH]; simpl; intros st st' H.
  - injection H as <-. apply grows_refl.
  - destruct (add_annot pages act o st q) as [e|st1] eqn:E; simpl in H; [discriminate|].
    eapply grows_trans; [eapply add_annot_grows; eauto|eauto].
Qed.

Lemma add_link_annots_grows st link log st' :
  add_link_annots pages objects pdf_pages st link = (log, inr st') -> grows st st'.
Proof.
  destruct link as [link_id link_href]. unfold add_link_annots.
  destruct (dict_mem bytes_eqb objects link_id); simpl.
  2:{ intros E; injection E as _ <-. apply grows_refl. }
  destruct (link_action pages objects pdf_pages link_href) as [e|[w|act]]; simpl.
  - discriminate.
  - intros E; injection E as _ <-. apply grows_refl.
  - unfold dict_item. destruct (dict_get bytes_eqb objects link_id) as [o|]; simpl.
    + destruct (foldM _ _ st) as [e|s] eqn:F; intros E; [discriminate|].
      injection E as _ <-. eapply foldM_add_annot_grows; eauto.
    + discriminate.
Qed.

Lemma foldP_steps {A S} (f : S -> A -> prog S) l : forall s log s',
  foldP f l s = (log, inr s') ->
  forall x, In x l -> exists s0 lg s1, f s0 x = (lg, inr s1).
Proof.
  induction l as [|y l IH]; simpl; intros s log s' H x Hx; [tauto|].
  unfold pbind in H. destruct (f s y) as [l1 [e|s1]] eqn:E; [discriminate|].
  destruct Hx as [<-|Hx]; [eauto|].
  destruct (foldP f l s1) as [l2 r] eqn:F. injection H as _ ->. eauto.
Qed.

Lemma synthesize_grows links : forall st log st',
  foldP (add_link_annots pages objects pdf_pages) links st = (log, inr st') ->
  grows st st'.
Proof.
  induction links as [|x links IH]; simpl; intros st log st' H.
  - injection H as _ <-. apply grows_refl.
  - unfold pbind in H.
    destruct (add_link_annots pages objects pdf_pages st x) as [l1 [e|s1]] eqn:E;
      [discriminate|].
    destruct (foldP _ links s1) as [l2 r] eqn:F. injection H as _ ->.
    eapply grows_trans; [eapply add_link_annots_grows|eapply IH]; eauto.
Qed.

(** One annotation per place, numbered from the next free id on, each
    filed under the page of its place. *)
Lemma foldM_add_annot_exact act o locs : forall st,
  (forall q, In q locs -> exists p, dict_get N.eqb pages (loc_page q) = Some p) ->
  exists st' new,
    foldM (add_annot pages act o) locs st = inr st'
    /\ pdf_annot_objects st' = pdf_annot_objects st ++ new
    /\ Forall2 (fun q a =>
         exists p, dict_get N.eqb pages (loc_page q) = Some p
                   /\ annot_action a = act /\ annot_rect a = link_rect p o q) locs new
    /\ map annot_id new = nseq (next_object_id st) (List.length locs)
    /\ next_object_id st' = next_object_id st + N.of_nat (List.length locs)
    /\ forall k,
         get_list (pdf_page_annots st') k =
         get_list (pdf_page_annots st) k
         ++ ids_on_page k (combine (nseq (next_object_id st) (List.length locs)) locs).
Proof.
  induction locs as [|q locs IH]; intros st Hp.
  - exists st, []. simpl. rewrite app_nil_r, N.add_0_r.
    repeat split; auto. intros k. unfold ids_on_page; simpl. now rewrite app_nil_r.
  - destruct (Hp q (or_introl eq_refl)) as [p Hq].
    cbn [foldM]. rewrite (add_annot_ok act o st q p Hq). cbn [bind].
    destruct (IH (Synth (next_object_id st + 1)
                    (append_at (pdf_page_annots st) (loc_page q) (next_object_id st))
                    (pdf_annot_objects st ++ [Annot (next_object_id st) act (link_rect p o q)])))
      as (st' & new & F & A & R & I & X & O).
    { intros q' Hq'. apply Hp. now right. }
    cbn [next_object_id pdf_page_annots pdf_annot_objects] in *.
    exists st', (Annot (next_object_id st) act (link_rect p o q) :: new).
    split; [exact F|]. split; [now rewrite A, <- app_assoc|].
    split; [constructor; [exists p; auto|exact R]|].
    split; [simpl; now rewrite I|].
    split; [rewrite X; simpl List.length; lia|].
    intros k. rewrite O, get_list_append_at. unfold ids_on_page. cbn [List.length nseq combine filter snd].
    rewrite (N.eqb_sym (loc_page q) k).
    destruct (k =? loc_page q); simpl; [now rewrite <- app_assoc|reflexivity].
Qed.

(** ** The greatest local y *)

Lemma ltb_irrefl x : PrimFloat.ltb x x = false.
Proof.
  destruct (PrimFloat.ltb x x) eqn:E; [|reflexivity].
  now rewrite (ltb_asym _ _ E) in E.
Qed.

Lemma max_y_from_spec l : forall best,
  In (max_y_from best l) (best :: l)
  /\ (max_y_from best l = best
      \/ PrimFloat.ltb (loc_y best) (loc_y (max_y_from best l)) = true)
  /\ (forall q, In q l -> PrimFloat.ltb (loc_y (max_y_from best l)) (loc_y q) = false).
Proof.
  induction l as [|q l IH]; intros best; simpl.
  - split; [now left|split; [now left|intros q []]].
  - unfold gtb.
    destruct (PrimFloat.ltb (loc_y best) (loc_y q)) eqn:E.
    + destruct (IH q) as (I & [R|R] & G).
      * rewrite R. repeat split; auto.
        intros q' [<-|Hq']; [apply ltb_irrefl|]. rewrite <- R. now apply G.
      * repeat split.
        -- simpl in I. tauto.
        -- right. eapply ltb_trans; eauto.
        -- intros q' [<-|Hq']; [now apply ltb_asym|now apply G].
    + destruct (IH best) as (I & [R|R] & G).
      * rewrite R. repeat split; auto.
        intros q' [<-|Hq']; [exact E|]. rewrite <- R. now apply G.
      * repeat split.
        -- simpl in I. tauto.
        -- now right.
        -- intros q' [Hq|Hq']; [subst q'|now apply G].
           destruct (PrimFloat.ltb (loc_y (max_y_from best l)) (loc_y q)) eqn:E'; [|reflexivity].
           now rewrite (ltb_trans _ _ _ R E') in E.
Qed.

Lemma max_y_spec l :
  l <> [] ->
  exists pl, max_y l = inr pl /\ In pl l
             /\ forall q, In q l -> gtb (loc_y q) (loc_y pl) = false.
Proof.
  destruct l as [|q0 l]; [congruence|]. intros _.
  exists (max_y_from q0 l). destruct (max_y_from_spec l q0) as (I & R & G).
  repeat split; auto. unfold gtb. intros q [<-|Hq]; [|now apply G].
  destruct R as [->|R]; [apply ltb_irrefl|now apply ltb_asym].
Qed.

End SynthesisFacts.

Lemma dict_mem_get {V} (d : dict bytes V) k v :
  dict_get bytes_eqb d k = Some v -> dict_mem bytes_eqb d k = true.
Proof. unfold dict_mem. now intros ->. Qed.





(** Claim C2: for an internal link whose target is catalogued with at least
    one place, the place chosen is one that no other place exceeds in local
    y (the greatest one when no y is a NaN), and the action is a go-to to the
    page object of that place's page, at [(x, H - y)] times 0.75. *)
Theorem goto_highest_local_y
    (pages : dict N page) (objects : dict bytes object) (pdf_pages : dict N pdf_page)
    (link_href : bytes) (target : object) :
  starts_with (b "#") link_href = true ->
  dict_get bytes_eqb objects (destination_id link_href) = Some target ->
  page_locs target <> [] ->
  (forall q, In q (page_locs target) ->
     exists p pp, dict_get N.eqb pages (loc_page q) = Some p
                  /\ dict_get N.eqb pdf_pages (page_number p) = Some pp) ->
  (exists pl p pp,
     In pl (page_locs target)
     /\ (forall q, In q (page_locs target) -> gtb (loc_y q) (loc_y pl) = false)
     /\ (forall q, In q (page_locs target) ->
           is_nan (loc_y q) = false -> is_nan (loc_y pl) = false ->
           PrimFloat.leb (loc_y q) (loc_y pl) = true)
     /\ dict_get N.eqb pages (loc_page pl) = Some p
     /\ dict_get N.eqb pdf_pages (page_number p) = Some pp
     /\ link_action pages objects pdf_pages link_href =
        inr (inr (GoTo (pdf_obj_id pp) (pdf_obj_gen pp)
                    (loc_x pl * 0.75) ((page_h p - loc_y pl) * 0.75))))
  /\ max_y [PageLoc 1 0 50; PageLoc 2 0 80] = inr (PageLoc 2 0 80).
Proof.
  intros Hs Ht Hne Hp. split; [|vm_compute; reflexivity].
  destruct (max_y_spec (page_locs target) Hne) as (pl & M & I & G).
  destruct (Hp pl I) as (p & pp & P & PP).
  exists pl, p, pp. repeat split; auto.
  - intros q Hq Nq Np. specialize (G q Hq). unfold gtb in G.
    rewrite (ltb_negb_leb (loc_y q) (loc_y pl)) in G by assumption.
    now apply negb_false_iff in G.
  - unfold link_action. rewrite Hs, Ht, M. cbn [bind]. unfold dict_item.
    rewrite P. unfold ret. cbn [bind]. rewrite PP. reflexivity.
Qed.

Lemma goto_highest_local_y_witness :
  link_action offset_pages spanning_objects two_pdf_pages (b "#t")
  = inr (inr (GoTo 8 0 (-3.75) 90)).
Proof.
  destruct (goto_highest_local_y offset_pages spanning_objects two_pdf_pages (b "#t")
              (Object (b "t") 95 50 10 10 [PageLoc 1 95 50; PageLoc 2 (-5) 80]))
    as ((pl & p & pp & I & G & _ & P & PP & A) & _).
  - reflexivity.
  - vm_compute. reflexivity.
  - discriminate.
  - intros q [<-|[<-|[]]].
    + exists (Page 1 0 0 100 100), (PdfPage 3 0). split; reflexivity.
    + exists (Page 2 100 (-30) 100 200), (PdfPage 8 0). split; reflexivity.
  - rewrite A. cbn [page_locs] in I, G.
    destruct I as [<-|[<-|[]]].
    + specialize (G _ (or_intror (or_introl eq_refl))). vm_compute in G. discriminate.
    + vm_compute in P. injection P as <-. vm_compute in PP. injection PP as <-.
      vm_compute. reflexivity.
Defined.



(** Claim C10: for an internal link whose source is catalogued, the warning
    is printed and the link dropped exactly when the destination id is not in
    the catalogue; a destination that is there with no place makes [max]
    raise [ValueError]; so a synthesis that ends normally had a place for
    every resolved internal target. *)
Theorem skip_only_on_missing_target
    (pages : dict N page) (objects : dict bytes object) (pdf_pages : dict N pdf_page)
    (st : synth) (link_id link_href : bytes) :
  dict_mem bytes_eqb objects link_id = true ->
  starts_with (b "#") link_href = true ->
  (add_link_annots pages objects pdf_pages st (link_id, link_href)
   = ([Print (b "warn: link target not found: " ++ link_href)], inr st)
   <-> dict_get bytes_eqb objects (destination_id link_href) = None)
  /\ (forall target,
        dict_get bytes_eqb objects (destination_id link_href) = Some target ->
        page_locs target = [] ->
        add_link_annots pages objects pdf_pages st (link_id, link_href)
        = ([], inl ValueError))
  /\ (forall links first_id log st',
        synthesize pages objects pdf_pages links first_id = (log, inr st') ->
        forall id href target,
          In (id, href) links ->
          dict_mem bytes_eqb objects id = true ->
          starts_with (b "#") href = true ->
          dict_get bytes_eqb objects (destination_id href) = Some target ->
          page_locs target <> []).
Proof.
  intros Hm Hs.
  assert (Empty : forall s id href target,
            dict_mem bytes_eqb objects id = true ->
            starts_with (b "#") href = true ->
            dict_get bytes_eqb objects (destination_id href) = Some target ->
            page_locs target = [] ->
            add_link_annots pages objects pdf_pages s (id, href) = ([], inl ValueError)).
  { intros s id href target M S T L. unfold add_link_annots, link_action.
    rewrite M, S, T, L. reflexivity. }
  split; [|split].
  - unfold add_link_annots, link_action. rewrite Hm, Hs. cbn [negb]. split.
    + destruct (dict_get bytes_eqb objects (destination_id link_href)) as [target|];
        [|reflexivity].
      intros H. exfalso.
      destruct (max_y (page_locs target)) as [e|pl]; [discriminate|]. cbn [bind] in H.
      unfold dict_item in H.
      destruct (dict_get N.eqb pages (loc_page pl)) as [p|]; [|discriminate].
      unfold ret in H. cbn [bind] in H.
      destruct (dict_get N.eqb pdf_pages (page_number p)) as [pp|]; [|discriminate].
      cbn [bind lift pbind] in H.
      destruct (dict_get bytes_eqb objects link_id) as [o|]; cbn [bind] in H;
        [|discriminate].
      destruct (foldM _ _ st); discriminate.
    + intros ->. reflexivity.
  - intros target T L. now apply (Empty st link_id link_href target).
  - intros links first_id log st' H id href target Hin M S T L.
    destruct (foldP_steps _ _ _ _ _ H _ Hin) as (s0 & lg & s1 & E).
    rewrite (Empty s0 id href target M S T L) in E. discriminate.
Qed.

Lemma skip_only_on_missing_target_witness :
  add_link_annots one_page placed_objects one_pdf_page (Synth 7 [] []) (b "a", b "#zz")
  = ([Print (b "warn: link target not found: #zz")], inr (Synth 7 [] []))
  /\ add_link_annots one_page stray_objects one_pdf_page (Synth 7 [] []) (b "a", b "#t")
     = ([], inl ValueError).
Proof.
  split.
  - apply (skip_only_on_missing_target one_page placed_objects one_pdf_page
             (Synth 7 [] []) (b "a") (b "#zz") eq_refl eq_refl).
    reflexivity.
  - apply (skip_only_on_missing_target one_page stray_objects one_pdf_page
             (Synth 7 [] []) (b "a") (b "#t")) with (target := Object (b "t") 500 500 10 10 []);
      vm_compute; reflexivity.
Defined.

(** ** Links *)

Lemma escape_parens_cons c t :
  escape_parens (c :: t) =
  (if Ascii.eqb c "("%char then b "%28"
   else if Ascii.eqb c ")"%char then b "%29" else [c]) ++ escape_parens t.
Proof.
  unfold escape_parens. cbn [replace_char].
  destruct (Ascii.eqb c "("%char) eqn:E; [reflexivity|].
  cbn [replace_char]. destruct (Ascii.eqb c ")"%char); reflexivity.
Qed.

Lemma escape_parens_hash h :
  starts_with (b "#") (escape_parens h) = starts_with (b "#") h.
Proof.
  destruct h as [|c t]; [reflexivity|]. rewrite escape_parens_cons.
  destruct (Ascii.eqb_spec c "("%char) as [->|_]; [reflexivity|].
  destruct (Ascii.eqb_spec c ")"%char) as [->|_]; reflexivity.
Qed.

Lemma escape_parens_destination h :
  starts_with (b "#") h = true ->
  destination_id (escape_parens h) = escape_parens (destination_id h).
Proof.
  destruct h as [|c t]; [discriminate|]. cbn [starts_with b list_ascii_of_string].
  rewrite andb_true_r. intros E. apply Ascii.eqb_eq in E. subst c.
  rewrite escape_parens_cons. reflexivity.
Qed.

Lemma escape_parens_no_paren h : no_paren (escape_parens h).
Proof.
  unfold no_paren. induction h as [|c t [IH1 IH2]]; [simpl; tauto|].
  rewrite escape_parens_cons.
  destruct (Ascii.eqb_spec c "("%char) as [->|N1].
  - split; intros H; apply in_app_or in H; destruct H as [H|H]; auto;
      simpl in H; intuition discriminate.
  - destruct (Ascii.eqb_spec c ")"%char) as [->|N2];
      split; intros H; apply in_app_or in H; destruct H as [H|H]; auto;
      simpl in H; intuition (try discriminate; congruence).
Qed.

Lemma escape_parens_id h : no_paren h -> escape_parens h = h.
Proof.
  unfold no_paren. induction h as [|c t IH]; [reflexivity|]. intros [N1 N2].
  rewrite escape_parens_cons, IH by (simpl in N1, N2; tauto).
  destruct (Ascii.eqb_spec c "("%char) as [->|_]; [simpl in N1; tauto|].
  destruct (Ascii.eqb_spec c ")"%char) as [->|_]; [simpl in N2; tauto|reflexivity].
Qed.

(** Claim C9, as the code has it: the catalogue holds every target with its
    parentheses escaped, internal or not. For an internal target the id
    looked up is the escaped target without its marker, which is the target's
    own id when that has no parenthesis; an external target goes into the
    action body escaped, so that [http://x/(a)] is written
    [http://x/%28a%29]. *)
Theorem targets_are_escaped
    (links : dict bytes bytes) (a : bytes) (id href : rmatch)
    (pages : dict N page) (objects : dict bytes object) (pdf_pages : dict N pdf_page) :
  re_search (value_re "id") a = Some id ->
  re_search (value_re "href") a = Some href ->
  let target := grp href 1 in
  add_link links a = dict_set bytes_eqb links (grp id 1) (escape_parens target)
  /\ starts_with (b "#") (escape_parens target) = starts_with (b "#") target
  /\ (starts_with (b "#") target = true ->
      destination_id (escape_parens target) = escape_parens (destination_id target)
      /\ (no_paren (destination_id target) ->
          destination_id (escape_parens target) = destination_id target)
      /\ (dict_get bytes_eqb objects (escape_parens (destination_id target)) = None ->
          link_action pages objects pdf_pages (escape_parens target)
          = inr (inl (b "warn: link target not found: " ++ escape_parens target))))
  /\ (starts_with (b "#") target = false ->
      link_action pages objects pdf_pages (escape_parens target)
      = inr (inr (URI (b "/URI /URI (" ++ escape_parens target ++ b ")")))
      /\ no_paren (escape_parens target))
  /\ escape_parens (b "http://x/(a)") = b "http://x/%28a%29".
Proof.
  intros Hi Hh target. split; [unfold add_link; now rewrite Hi, Hh|].
  split; [apply escape_parens_hash|]. split; [|split; [|reflexivity]].
  - intros S. split; [now apply escape_parens_destination|]. split.
    + intros NP. rewrite escape_parens_destination by assumption.
      now apply escape_parens_id.
    + intros G. unfold link_action.
      rewrite escape_parens_hash, S, escape_parens_destination, G by assumption.
      reflexivity.
  - intros S. split; [|apply escape_parens_no_paren].
    unfold link_action. rewrite escape_parens_hash, S. reflexivity.
Qed.

Lemma targets_are_escaped_witness :
  load_links external_svg = [(b "a", b "http://x/%28a%29")]
  /\ link_action one_page placed_objects one_pdf_page (b "http://x/%28a%29")
     = inr (inr (URI (b "/URI /URI (http://x/%28a%29)"))).
Proof.
  destruct (re_search (value_re "id") (bq "id='a' href='http://x/(a)'")) as [id|] eqn:Ei;
    [|vm_compute in Ei; discriminate].
  destruct (re_search (value_re "href") (bq "id='a' href='http://x/(a)'")) as [href|] eqn:Eh;
    [|vm_compute in Eh; discriminate].
  destruct (targets_are_escaped [] _ id href one_page placed_objects one_pdf_page Ei Eh)
    as (A & _ & _ & X & _).
  assert (T : grp href 1 = b "http://x/(a)").
  { vm_compute in Eh. injection Eh as <-. reflexivity. }
  assert (I : grp id 1 = b "a").
  { vm_compute in Ei. injection Ei as <-. reflexivity. }
  split.
  - change (load_links external_svg)
      with (fold_left add_link (re_findall1 anchor_re external_svg) []).
    replace (re_findall1 anchor_re external_svg) with [bq "id='a' href='http://x/(a)'"]
      by (vm_compute; reflexivity).
    cbn [fold_left]. rewrite A, T, I. reflexivity.
  - rewrite T in X. destruct X as [X _]; [reflexivity|]. exact X.
Defined.

(** Claim C9 fails as worded: the id looked up for the internal target
    [#t(1)] is [t%281%29], so the catalogued object [t(1)] is not found. *)
Lemma internal_target_is_escaped :
  load_links paren_svg = [(b "s", b "#t%281%29")]
  /\ destination_id (b "#t%281%29") <> b "t(1)"
  /\ dict_mem bytes_eqb paren_objects (b "t(1)") = true
  /\ link_action one_page paren_objects one_pdf_page (b "#t%281%29")
     = inr (inl (b "warn: link target not found: #t%281%29")).
Proof.
  split; [vm_compute; reflexivity|]. split; [discriminate|].
  split; vm_compute; reflexivity.
Qed.

(** ** Document scaling *)

Lemma search_or_raise_error r s e :
  search_or_raise r s = inl e -> e = AttributeError /\ re_search r s = None.
Proof.
  unfold search_or_raise. destruct (re_search r s); [discriminate|].
  intros H; injection H as <-. auto.
Qed.

Lemma size_attr_error name tag e :
  size_attr name tag = inl e ->
  e = AttributeError /\ re_search (size_re name) tag = None.
Proof.
  unfold size_attr. destruct (search_or_raise (size_re name) tag) as [e'|m] eqn:E.
  - cbn [bind]. intros H; injection H as <-. now apply search_or_raise_error.
  - discriminate.
Qed.

Lemma py_float_error s e : py_float s = inl e -> e = ValueError.
Proof.
  unfold py_float. destruct (split_sign (strip s)) as [neg t].
  destruct (_ || _); [discriminate|]. destruct (bytes_eqb _ _); [discriminate|].
  destruct (drop_underscores None t) as [u|]; [|intros H; now injection H as <-].
  destruct (parse_number u) as [[n e']|]; [discriminate|intros H; now injection H as <-].
Qed.

Lemma dict_item_error {K V} (eqb : K -> K -> bool) (d : dict K V) k e :
  dict_item eqb d k = inl e -> e = KeyError.
Proof. unfold dict_item. destruct (dict_get eqb d k); [discriminate|]. intros H; now injection H as <-. Qed.

Lemma py_div_error x y e : py_div x y = inl e -> e = ZeroDivisionError.
Proof. unfold py_div. destruct (PrimFloat.eqb y 0); [|discriminate]. intros H; now injection H as <-. Qed.


Lemma search_or_raise_ok r s m : search_or_raise r s = inr m -> re_search r s = Some m.
Proof.
  unfold search_or_raise. destruct (re_search r s); [|discriminate].
  intros H; now injection H as <-.
Qed.

Ltac bind_step H e x E :=
  match type of H with
  | bind ?m _ = _ => destruct m as [e|x] eqn:E; cbn [bind] in H
  end.




(** ** The whole program *)

Lemma document_scaling_error svg e :
  document_scaling svg = inl e ->
  e = AttributeError \/ e = ValueError \/ e = KeyError \/ e = ZeroDivisionError.
Proof.
  unfold document_scaling. intros H.
  bind_step H e0 t Et; [injection H as <-; apply search_or_raise_error in Et; tauto|].
  destruct (size_attr "width" (group0 t)) as [e0|[wv wu]] eqn:Ew; cbn [bind] in H;
    [injection H as <-; apply size_attr_error in Ew; tauto|].
  destruct (size_attr "height" (group0 t)) as [e0|[hv hu]] eqn:Eh; cbn [bind] in H;
    [injection H as <-; apply size_attr_error in Eh; tauto|].
  bind_step H e0 vb Evb; [injection H as <-; apply search_or_raise_error in Evb; tauto|].
  bind_step H e0 vx Evx; [injection H as <-; apply py_float_error in Evx; tauto|].
  bind_step H e0 vy Evy; [injection H as <-; apply py_float_error in Evy; tauto|].
  bind_step H e0 vw Evw; [injection H as <-; apply py_float_error in Evw; tauto|].
  bind_step H e0 vh Evh; [injection H as <-; apply py_float_error in Evh; tauto|].
  bind_step H e0 uw Euw; [injection H as <-; apply dict_item_error in Euw; tauto|].
  bind_step H e0 fw Efw; [injection H as <-; apply py_float_error in Efw; tauto|].
  bind_step H e0 uh Euh; [injection H as <-; apply dict_item_error in Euh; tauto|].
  bind_step H e0 fh Efh; [injection H as <-; apply py_float_error in Efh; tauto|].
  bind_step H e0 xs Exs; [injection H as <-; apply py_div_error in Exs; tauto|].
  bind_step H e0 ys Eys; [injection H as <-; apply py_div_error in Eys; tauto|].
  discriminate.
Qed.










(** ** Decimal numerals *)

Lemma is_digit_word c : is_digit c = true -> is_word c = true.
Proof. unfold is_word. now intros ->. Qed.

Lemma nilempty_digits d :
  forallb is_digit (list_ascii_of_string (NilEmpty.string_of_uint d)) = true.
Proof. induction d; simpl; auto. Qed.

Lemma to_uint_nonnil n : N.to_uint n <> Decimal.Nil.
Proof.
  destruct n as [|p]; [discriminate|]. apply DecimalPos.Unsigned.to_uint_nonnil.
Qed.

Lemma dec_nilempty n :
  dec n = list_ascii_of_string (NilEmpty.string_of_uint (N.to_uint n)).
Proof.
  unfold dec, NilZero.string_of_uint.
  pose proof (to_uint_nonnil n). destruct (N.to_uint n); congruence.
Qed.

Lemma dec_digits n : forallb is_digit (dec n) = true.
Proof. rewrite dec_nilempty. apply nilempty_digits. Qed.

Lemma dec_nonempty n : dec n <> [].
Proof.
  rewrite dec_nilempty. pose proof (to_uint_nonnil n).
  destruct (N.to_uint n); simpl; congruence.
Qed.

Lemma dec_head n : exists d ds, dec n = d :: ds /\ is_digit d = true.
Proof.
  pose proof (dec_nonempty n) as NE. pose proof (dec_digits n) as D.
  destruct (dec n) as [|d ds]; [congruence|]. simpl in D.
  apply andb_true_iff in D. exists d, ds. tauto.
Qed.

(** ** Stripping *)

Lemma is_space_not_word c : is_space c = true -> is_word c = false.
Proof.
  unfold is_space, is_word, is_digit. intros H.
  apply orb_true_iff in H. destruct H as [H|H].
  - apply N.eqb_eq in H. rewrite H. reflexivity.
  - apply andb_true_iff in H. destruct H as [H1 H2].
    apply N.leb_le in H1, H2.
    repeat match goal with
           | |- context [?u <=? ?v] => destruct (N.leb_spec u v)
           | |- context [?u =? ?v] => destruct (N.eqb_spec u v)
           end; simpl; try reflexivity; lia.
Qed.

Lemma lstrip_suffix s : exists w, s = w ++ lstrip s.
Proof.
  induction s as [|c s [w IH]]; [now exists []|]. cbn [lstrip].
  destruct (is_space c); [|now exists []].
  exists (c :: w). simpl. now f_equal.
Qed.

Lemma rstrip_prefix s : exists w, s = rstrip s ++ w.
Proof.
  unfold rstrip. destruct (lstrip_suffix (rev s)) as [w E].
  exists (rev w). rewrite <- rev_app_distr, <- E. now rewrite rev_involutive.
Qed.

(** ** The list of a page block *)

Lemma drop_stale_nil deleted :
  fold_left (fun raw (d : N * N) => re_sub (ref_re (fst d) (snd d)) [] raw) deleted [] = [].
Proof. induction deleted as [|d deleted IH]; simpl; auto. Qed.

Lemma add_refs_concat ids : forall raw,
  fold_left (fun raw obj_id => raw ++ ref_line obj_id) ids raw
  = raw ++ List.concat (map ref_line ids).
Proof.
  induction ids as [|id ids IH]; intros raw; cbn [fold_left map List.concat].
  - now rewrite app_nil_r.
  - now rewrite IH, <- app_assoc.
Qed.

Lemma new_raw_annots_eq deleted ids :
  new_raw_annots deleted ids = strip (List.concat (map ref_line ids)).
Proof. unfold new_raw_annots. now rewrite drop_stale_nil, add_refs_concat. Qed.

(** Claim C6, which the code does not meet: the list that a page block had
    is never read, since the callback that should keep it binds a name of its
    own and returns nothing. On a page that lists the link annotation 4,
    found for deletion, and the text annotation 9, the rewrite with the new
    id 10 leaves a list that refers to 10 alone: the reference to the
    annotation 9, which the claim keeps, is cut with the stale one. *)
Theorem live_reference_is_cut :
  find_deleted_annots live_qdf = [(4, 0)]
  /\ first_free_id live_qdf = inr 10
  /\ rewrite_pages (find_deleted_annots live_qdf) [(1, [10])] live_qdf
     = inr (lines
              ["%PDF-1.5"; "%QDF-1.0"; "";
               "%% Page 1"; "%% Original object ID: 3 0"; "3 0 obj"; "<<";
               "/Annots [ 10 0 R ]"; "  "; "  /Contents 5 0 R";
               "  /Type /Page"; ">>"; "endobj"; "";
               "%% Original object ID: 4 0"; "4 0 obj"; "<<"; "  /A <<";
               "    /S /URI"; "  >>"; "  /Subtype /Link"; "  /Type /Annot"; ">>";
               "endobj"; "";
               "%% Original object ID: 9 0"; "9 0 obj"; "<<"; "  /Contents (note)";
               "  /Subtype /Text"; "  /Type /Annot"; ">>"; "endobj"; "";
               "xref"; "0 10"; "0000000000 65535 f "; "trailer <<"; ">>";
               "startxref"; "1234"; "%%EOF"]%string)
  /\ (forall block,
        re_search page_block_re live_qdf = Some block ->
        contains (b "9 0 R") (group0 block) = true
        /\ forall out,
             replace_annots_for_page (find_deleted_annots live_qdf) [(1, [10])] block
             = inr out ->
             contains (b "9 0 R") out = false /\ contains (b "10 0 R") out = true).
Proof.
  split; [vm_compute; reflexivity|]. split; [vm_compute; reflexivity|].
  split; [vm_compute; reflexivity|].
  intros block E. vm_compute in E. injection E as <-.
  split; [vm_compute; reflexivity|].
  intros out H. vm_compute in H. injection H as <-.
  split; vm_compute; reflexivity.
Qed.

(** ** Substitution leaves the text outside the matches as it is *)

Lemma match_here_prefix r p s m :
  match_here r p s = Some m -> exists n, group0 m = firstn n s.
Proof.
  unfold match_here. destruct (run r (MState p s []) Some) as [st|]; [|discriminate].
  intros H; injection H as <-. unfold consumed. cbn [group0 rest]. eauto.
Qed.

Lemma firstn_of_length {A} (s : list A) n k :
  List.length (firstn n s) = k -> firstn n s = firstn k s.
Proof.
  intros H. rewrite length_firstn in H.
  destruct (Nat.le_ge_cases n (List.length s)) as [L|L].
  - rewrite Nat.min_l in H by assumption. now subst.
  - rewrite Nat.min_r in H by assumption. subst k.
    rewrite firstn_all. now apply firstn_all2.
Qed.

Lemma re_split_join r s : forall skip p,
  flat_map restore (re_split r skip p s) = skipn skip s.
Proof.
  induction s as [|c t IH]; intros skip p; [now destruct skip|].
  destruct skip as [|k]; cbn [re_split skipn]; [|apply IH].
  destruct (match_here r p (c :: t)) as [m|] eqn:E.
  - destruct (List.length (group0 m)) as [|k] eqn:L; cbn [flat_map restore].
    + rewrite IH. reflexivity.
    + rewrite IH. destruct (match_here_prefix _ _ _ _ E) as [n G].
      rewrite G in L |- *. rewrite (firstn_of_length _ _ _ L).
      cbn [firstn app]. now rewrite firstn_skipn.
  - cbn [flat_map restore]. rewrite IH. reflexivity.
Qed.

Lemma re_sub_identity r s : re_sub_fn r (fun m => Some (group0 m)) s = s.
Proof.
  unfold re_sub_fn, pieces. rewrite <- (re_split_join r s 0 None) at 2.
  apply flat_map_ext. now intros [c|m].
Qed.

Lemma re_sub_no_match r f s : re_finditer r s = [] -> re_sub_fn r f s = s.
Proof.
  unfold re_finditer, re_sub_fn. intros H.
  rewrite <- (re_sub_identity r s) at 2. unfold re_sub_fn.
  induction (pieces r s) as [|pc l IH]; [reflexivity|].
  destruct pc as [c|m]; cbn [hits flat_map app] in *; [|discriminate].
  f_equal. now apply IH.
Qed.

Lemma mapM_pure {A B} (f : A -> result B) (h : A -> B) l :
  (forall x, f x = inr (h x)) -> mapM f l = inr (map h l).
Proof.
  intros H. induction l as [|x l IH]; [reflexivity|].
  cbn [mapM map]. now rewrite H, IH.
Qed.

Lemma re_sub_fnM_pure r (repl : rmatch -> result (option bytes)) g s :
  (forall m, repl m = inr (Some (g m))) ->
  re_sub_fnM r repl s = inr (re_sub_fn r (fun m => Some (g m)) s).
Proof.
  intros H. unfold re_sub_fnM, re_sub_fn.
  rewrite (mapM_pure _ (fun pc => match pc with Keep c => [c] | Hit m => g m end)).
  - cbn [bind]. now rewrite flat_map_concat_map.
  - intros [c|m]; [reflexivity|]. now rewrite H.
Qed.

Lemma replace_annots_no_links deleted m :
  replace_annots_for_page deleted [] m
  = inr (re_sub_fn annots_re (fun _ => None) (group0 m)).
Proof.
  unfold replace_annots_for_page. cbn [get_list dict_get].
  rewrite new_raw_annots_eq. reflexivity.
Qed.

(** Claim C7, as the code has it: with no link, the edit cuts every
    annotation list out of every page block and puts none in, and it puts a
    newline before each [xref] line; every other byte stays, and a page block
    without a list stays as it is. *)
Theorem edit_without_links
    (deleted : list (N * N)) (qdf : bytes)
    (pages : dict N page) (objects : dict bytes object) (pdf_pages : dict N pdf_page)
    (first_id : N) :
  synthesize pages objects pdf_pages [] first_id = ([], inr (Synth first_id [] []))
  /\ (forall m,
        replace_annots_for_page deleted [] m
        = inr (re_sub_fn annots_re (fun _ => None) (group0 m)))
  /\ edit_qdf deleted [] [] qdf
     = inr (re_sub_fn xref_re (fun _ => Some (nl :: b "xref"))
              (re_sub_fn page_block_re
                 (fun m => Some (re_sub_fn annots_re (fun _ => None) (group0 m))) qdf))
  /\ (forall r s, re_sub_fn r (fun m => Some (group0 m)) s = s)
  /\ (forall blk f, re_finditer annots_re blk = [] -> re_sub_fn annots_re f blk = blk).
Proof.
  split; [reflexivity|]. split; [apply replace_annots_no_links|].
  split; [|split; [apply re_sub_identity|intros; now apply re_sub_no_match]].
  unfold edit_qdf, rewrite_pages.
  rewrite (re_sub_fnM_pure _ _
             (fun m => re_sub_fn annots_re (fun _ => None) (group0 m))).
  - reflexivity.
  - intros m. now rewrite replace_annots_no_links.
Qed.

(** Claim C7 fails as worded: a file without any annotation list does not
    come back as it was, a newline has been put before its [xref] line. *)
Lemma edit_is_not_identity :
  contains (b "/Annots") plain_qdf = false
  /\ edit_qdf [] [] [] plain_qdf
     = inr (lines ["%QDF-1.0"; "";
                   "%% Page 1"; "%% Original object ID: 3 0"; "3 0 obj"; "<<";
                   "  /Contents 5 0 R"; "  /Type /Page"; ">>"; "endobj"; ""; "";
                   "xref"; "0 7"; "0000000000 65535 f "; "trailer <<"; ">>";
                   "startxref"; "1234"; "%%EOF"]%string)
  /\ edit_qdf [] [] [] plain_qdf <> inr plain_qdf.
Proof.
  split; [vm_compute; reflexivity|].
  assert (E : edit_qdf [] [] [] plain_qdf
              = inr (lines ["%QDF-1.0"; "";
                   "%% Page 1"; "%% Original object ID: 3 0"; "3 0 obj"; "<<";
                   "  /Contents 5 0 R"; "  /Type /Page"; ">>"; "endobj"; ""; "";
                   "xref"; "0 7"; "0000000000 65535 f "; "trailer <<"; ">>";
                   "startxref"; "1234"; "%%EOF"]%string))
    by (vm_compute; reflexivity).
  split; [exact E|]. rewrite E. intros H.
  apply (f_equal (fun r : result bytes =>
                    match r with inr t => List.length t | inl _ => O end)) in H.
  vm_compute in H. discriminate.
Qed.

(** * Further properties *)

(** ** Dictionaries *)

Lemma bytes_eqb_eq x y : bytes_eqb x y = true <-> x = y.
Proof. unfold bytes_eqb. destruct (list_eq_dec ascii_dec x y); intuition congruence. Qed.

Section DictFacts.
Context {K V : Type} (eqb : K -> K -> bool).
Hypothesis eqb_eq : forall x y, eqb x y = true <-> x = y.

Lemma eqb_refl_true x : eqb x x = true.
Proof. now apply eqb_eq. Qed.

Lemma dict_get_set (d : dict K V) k v k' :
  dict_get eqb (dict_set eqb d k v) k' =
  if eqb k' k then Some v else dict_get eqb d k'.
Proof.
  induction d as [|[k0 v0] d IH]; cbn [dict_set dict_get]; [reflexivity|].
  destruct (eqb k k0) eqn:E; cbn [dict_get].
  - apply eqb_eq in E; subst k0. destruct (eqb k' k); reflexivity.
  - rewrite IH. destruct (eqb k' k0) eqn:E0; [|reflexivity].
    apply eqb_eq in E0; subst k0.
    destruct (eqb k' k) eqn:E1; [|reflexivity].
    apply eqb_eq in E1; subst. rewrite eqb_refl_true in E. discriminate.
Qed.

Lemma dict_get_none (d : dict K V) k :
  dict_get eqb d k = None <-> ~ In k (dict_keys d).
Proof.
  induction d as [|[k0 v0] d IH]; cbn [dict_get dict_keys map fst In]; [tauto|].
  destruct (eqb k k0) eqn:E.
  - apply eqb_eq in E. subst. split; [discriminate|tauto].
  - fold (dict_keys d). rewrite IH. split; [|tauto].
    intros H [->|H']; [|tauto]. rewrite eqb_refl_true in E. discriminate.
Qed.

Lemma dict_get_in (d : dict K V) k v :
  dict_get eqb d k = Some v -> In (k, v) d.
Proof.
  induction d as [|[k0 v0] d IH]; cbn [dict_get]; [discriminate|].
  destruct (eqb k k0) eqn:E.
  - apply eqb_eq in E. subst. intros H; injection H as <-. now left.
  - intros H. right. now apply IH.
Qed.

Lemma dict_get_nodup (d : dict K V) k v :
  NoDup (dict_keys d) -> In (k, v) d -> dict_get eqb d k = Some v.
Proof.
  induction d as [|[k0 v0] d IH]; cbn [dict_keys map fst dict_get]; intros ND H;
    [destruct H|].
  inversion ND as [|? ? N1 N2]; subst. destruct H as [H|H].
  - injection H as -> ->. now rewrite eqb_refl_true.
  - destruct (eqb k k0) eqn:E.
    + apply eqb_eq in E. subst k0. exfalso. apply N1.
      change k with (fst (k, v)). now apply in_map.
    + now apply IH.
Qed.

Lemma dict_set_fresh (d : dict K V) k v :
  ~ In k (dict_keys d) -> dict_set eqb d k v = d ++ [(k, v)].
Proof.
  induction d as [|[k0 v0] d IH]; cbn [dict_keys map fst In dict_set]; intros H;
    [reflexivity|].
  destruct (eqb k k0) eqn:E.
  - apply eqb_eq in E. subst. tauto.
  - cbn [app]. f_equal. apply IH. tauto.
Qed.

Lemma dict_set_keys (d : dict K V) k v :
  dict_keys (dict_set eqb d k v) =
  if dict_mem eqb d k then dict_keys d else dict_keys d ++ [k].
Proof.
  unfold dict_mem.
  induction d as [|[k0 v0] d IH]; cbn [dict_set dict_get dict_keys map fst];
    [reflexivity|].
  destruct (eqb k k0) eqn:E; [reflexivity|].
  cbn [map fst]. fold (dict_keys d) (dict_keys (dict_set eqb d k v)). rewrite IH.
  destruct (dict_get eqb d k); reflexivity.
Qed.

Lemma dict_set_in (d : dict K V) k v k' v' :
  In (k', v') (dict_set eqb d k v) -> In (k', v') d \/ (k' = k /\ v' = v).
Proof.
  induction d as [|[k0 v0] d IH]; cbn [dict_set In].
  - intros [H|[]]. injection H as <- <-. tauto.
  - destruct (eqb k k0) eqn:E; cbn [In].
    + apply eqb_eq in E. subst k0. intros [H|H]; [injection H as <- <-|]; tauto.
    + intros [H|H]; [tauto|]. apply IH in H. tauto.
Qed.

Lemma dict_set_nodup (d : dict K V) k v :
  NoDup (dict_keys d) -> NoDup (dict_keys (dict_set eqb d k v)).
Proof.
  intros ND. rewrite dict_set_keys. unfold dict_mem.
  destruct (dict_get eqb d k) eqn:E; [exact ND|].
  apply dict_get_none in E. apply NoDup_app; [exact ND|repeat constructor; tauto|].
  intros x Hx [<-|[]]. tauto.
Qed.

End DictFacts.

(** ** The catalogue of links *)

Lemma add_link_in links a k v :
  In (k, v) (add_link links a) -> In (k, v) links \/ no_paren v.
Proof.
  unfold add_link.
  destruct (re_search (value_re "id") a) as [id|]; [|tauto].
  destruct (re_search (value_re "href") a) as [href|]; [|tauto].
  intros H. apply (dict_set_in _ bytes_eqb_eq) in H. destruct H as [H|[_ ->]]; [tauto|].
  right. apply escape_parens_no_paren.
Qed.

Lemma fold_add_link_in anchors : forall links k v,
  In (k, v) (fold_left add_link anchors links) -> In (k, v) links \/ no_paren v.
Proof.
  induction anchors as [|a anchors IH]; intros links k v H; [tauto|].
  cbn [fold_left] in H. apply IH in H. destruct H as [H|H]; [|tauto].
  now apply add_link_in in H.
Qed.

Lemma add_link_nodup links a :
  NoDup (dict_keys links) -> NoDup (dict_keys (add_link links a)).
Proof.
  unfold add_link.
  destruct (re_search (value_re "id") a) as [id|]; [|tauto].
  destruct (re_search (value_re "href") a) as [href|]; [|tauto].
  apply dict_set_nodup, bytes_eqb_eq.
Qed.

Lemma fold_add_link_nodup anchors : forall links,
  NoDup (dict_keys links) -> NoDup (dict_keys (fold_left add_link anchors links)).
Proof.
  induction anchors as [|a anchors IH]; intros links H; [exact H|].
  cbn [fold_left]. apply IH. now apply add_link_nodup.
Qed.

(** X1: the catalogue never holds a target with a parenthesis, whatever the
    SVG text, and lists no source id twice. (Lines 142-151.) *)
Theorem catalogue_has_no_parenthesis (svg : bytes) :
  NoDup (dict_keys (load_links svg))
  /\ forall link_id link_href,
       In (link_id, link_href) (load_links svg) -> no_paren link_href.
Proof.
  split.
  - apply fold_add_link_nodup. constructor.
  - intros k v H. apply fold_add_link_in in H. destruct H as [[]|H]. exact H.
Qed.

(** X2: an anchor with an id and a target sets the entry of its id to the
    escaped target and leaves every other entry as it was; an id that was
    there keeps its place in the catalogue, a new one goes last. An anchor
    that declares an id again therefore replaces the earlier target.
    (Lines 144-151.) *)
Theorem later_link_wins
    (links : dict bytes bytes) (a : bytes) (id href : rmatch) (k : bytes) :
  re_search (value_re "id") a = Some id ->
  re_search (value_re "href") a = Some href ->
  dict_get bytes_eqb (add_link links a) k
  = (if bytes_eqb k (grp id 1) then Some (escape_parens (grp href 1))
     else dict_get bytes_eqb links k)
  /\ dict_keys (add_link links a)
     = (if dict_mem bytes_eqb links (grp id 1) then dict_keys links
        else dict_keys links ++ [grp id 1]).
Proof.
  intros Hi Hh. unfold add_link. rewrite Hi, Hh. split.
  - apply dict_get_set, bytes_eqb_eq.
  - apply dict_set_keys.
Qed.

Lemma later_link_wins_witness :
  load_links paged_svg = [(b "a", b "http://x/%28a%29")].
Proof.
  destruct (re_search (value_re "id") (bq "id='a' href='http://x/(a)'/")) as [id|] eqn:Ei;
    [|vm_compute in Ei; discriminate].
  destruct (re_search (value_re "href") (bq "id='a' href='http://x/(a)'/")) as [href|] eqn:Eh;
    [|vm_compute in Eh; discriminate].
  destruct (later_link_wins [(b "a", b "#t")] _ id href (b "a") Ei Eh) as [G K].
  assert (I : grp id 1 = b "a") by (vm_compute in Ei; injection Ei as <-; reflexivity).
  assert (T : grp href 1 = b "http://x/(a)")
    by (vm_compute in Eh; injection Eh as <-; reflexivity).
  rewrite I, T in G. rewrite I in K.
  change (load_links paged_svg)
    with (fold_left add_link (re_findall1 anchor_re paged_svg) []).
  replace (re_findall1 anchor_re paged_svg)
    with [bq "id='a' href='#t'"; bq "id='a' href='http://x/(a)'/"]
    by (vm_compute; reflexivity).
  cbn [fold_left].
  replace (add_link [] (bq "id='a' href='#t'")) with [(b "a", b "#t")]
    by (vm_compute; reflexivity).
  destruct (add_link [(b "a", b "#t")] (bq "id='a' href='http://x/(a)'/"))
    as [|[k v] [|kv l]]; cbn in K; try discriminate.
  injection K as ->. cbn in G.
  change (bytes_eqb (b "a") (b "a")) with true in G. cbn in G.
  now injection G as ->.
Defined.

(** ** The catalogue of objects *)

Lemma add_object_inv objects i objects' :
  add_object objects i = inr objects' ->
  (NoDup (dict_keys objects) -> NoDup (dict_keys objects'))
  /\ forall k o, In (k, o) objects' ->
       In (k, o) objects \/ (obj_id o = k /\ page_locs o = []).
Proof.
  unfold add_object. intros H.
  bind_step H e x Ex; [discriminate|]. bind_step H e y Ey; [discriminate|].
  bind_step H e w Ew; [discriminate|]. bind_step H e h Eh; [discriminate|].
  injection H as <-. split.
  - apply dict_set_nodup, bytes_eqb_eq.
  - intros k o Hin. apply (dict_set_in _ bytes_eqb_eq) in Hin.
    destruct Hin as [Hin|[-> ->]]; auto.
Qed.

Lemma add_object_error objects i e : add_object objects i = inl e -> e = ValueError.
Proof.
  unfold add_object. intros H.
  bind_step H e0 x Ex; [injection H as <-; now apply py_float_error in Ex|].
  bind_step H e0 y Ey; [injection H as <-; now apply py_float_error in Ey|].
  bind_step H e0 w Ew; [injection H as <-; now apply py_float_error in Ew|].
  bind_step H e0 h Eh; [injection H as <-; now apply py_float_error in Eh|].
  discriminate.
Qed.

Lemma foldM_add_object l : forall objects r,
  foldM add_object l objects = r ->
  match r with
  | inl e => e = ValueError
  | inr objects' =>
      (NoDup (dict_keys objects) -> NoDup (dict_keys objects'))
      /\ forall k o, In (k, o) objects' ->
           In (k, o) objects \/ (obj_id o = k /\ page_locs o = [])
  end.
Proof.
  induction l as [|i l IH]; intros objects r H; cbn [foldM] in H.
  - subst r. cbn. tauto.
  - destruct (add_object objects i) as [e|o1] eqn:E; cbn [bind] in H.
    + subst r. now apply add_object_error in E.
    + apply IH in H. destruct r as [e|objects']; [exact H|].
      destruct (add_object_inv _ _ _ E) as [N1 I1]. destruct H as [N2 I2].
      split; [auto|]. intros k o Hin. apply I2 in Hin.
      destruct Hin as [Hin|Hin]; [apply I1 in Hin|]; tauto.
Qed.


(** ** Pages *)

Lemma enumerate_length {A} (l : list A) i : List.length (enumerate i l) = List.length l.
Proof. revert i; induction l; intros; simpl; auto. Qed.

Lemma add_page_inv sc pages i p pages' :
  add_page sc pages (i, p) = inr pages' ->
  exists pg, page_number pg = i + 1 /\ pages' = dict_set N.eqb pages (i + 1) pg.
Proof.
  unfold add_page. intros H.
  bind_step H e mx Ex; [discriminate|]. bind_step H e my Ey; [discriminate|].
  bind_step H e mw Ew; [discriminate|]. bind_step H e mh Eh; [discriminate|].
  bind_step H e x Fx; [discriminate|]. bind_step H e y Fy; [discriminate|].
  bind_step H e w Fw; [discriminate|]. bind_step H e h Fh; [discriminate|].
  injection H as <-. eexists. split; [|reflexivity]. reflexivity.
Qed.

Lemma add_page_error sc pages ip e :
  add_page sc pages ip = inl e -> e = AttributeError \/ e = ValueError.
Proof.
  destruct ip as [i p]. unfold add_page. intros H.
  bind_step H e0 mx Ex; [injection H as <-; apply search_or_raise_error in Ex; tauto|].
  bind_step H e0 my Ey; [injection H as <-; apply search_or_raise_error in Ey; tauto|].
  bind_step H e0 mw Ew; [injection H as <-; apply search_or_raise_error in Ew; tauto|].
  bind_step H e0 mh Eh; [injection H as <-; apply search_or_raise_error in Eh; tauto|].
  bind_step H e0 x Fx; [injection H as <-; apply py_float_error in Fx; tauto|].
  bind_step H e0 y Fy; [injection H as <-; apply py_float_error in Fy; tauto|].
  bind_step H e0 w Fw; [injection H as <-; apply py_float_error in Fw; tauto|].
  bind_step H e0 h Fh; [injection H as <-; apply py_float_error in Fh; tauto|].
  discriminate.
Qed.

Lemma foldM_add_page sc l : forall i pages r,
  foldM (add_page sc) (enumerate i l) pages = r ->
  (forall k, In k (dict_keys pages) -> k <= i) ->
  (forall k p, In (k, p) pages -> page_number p = k) ->
  match r with
  | inl e => e = AttributeError \/ e = ValueError
  | inr pages' =>
      dict_keys pages' = dict_keys pages ++ nseq (i + 1) (List.length l)
      /\ forall k p, In (k, p) pages' -> page_number p = k
  end.
Proof.
  induction l as [|p l IH]; intros i pages r H B O; cbn [enumerate foldM] in H.
  - subst r. cbn. rewrite app_nil_r. auto.
  - destruct (add_page sc pages (i, p)) as [e|p1] eqn:E; cbn [bind] in H.
    + subst r. now apply add_page_error in E.
    + destruct (add_page_inv _ _ _ _ _ E) as (pg & Np & ->).
      assert (F : ~ In (i + 1) (dict_keys pages)) by (intros X; apply B in X; lia).
      rewrite (dict_set_fresh _ N.eqb_eq _ _ _ F) in H.
      apply IH in H.
      * destruct r as [e|pages']; [exact H|]. destruct H as [Kk Oo].
        split; [|exact Oo]. rewrite Kk. unfold dict_keys. rewrite map_app.
        cbn [map fst nseq List.length]. now rewrite <- app_assoc.
      * intros k Hk. unfold dict_keys in Hk. rewrite map_app in Hk.
        apply in_app_or in Hk. cbn [map fst In] in Hk.
        destruct Hk as [Hk|[Hk|[]]]; [apply B in Hk|]; lia.
      * intros k q Hq. apply in_app_or in Hq.
        destruct Hq as [Hq|[Hq|[]]]; [now apply O|]. now injection Hq as <- <-.
Qed.

Lemma add_page_read sc pages i p pages' :
  add_page sc pages (i, p) = inr pages' ->
  exists pg, declared_as sc (i + 1) p pg /\ pages' = dict_set N.eqb pages (i + 1) pg.
Proof.
  unfold add_page. intros H.
  bind_step H e mx Ex; [discriminate|]. bind_step H e my Ey; [discriminate|].
  bind_step H e mw Ew; [discriminate|]. bind_step H e mh Eh; [discriminate|].
  bind_step H e x Fx; [discriminate|]. bind_step H e y Fy; [discriminate|].
  bind_step H e w Fw; [discriminate|]. bind_step H e h Fh; [discriminate|].
  injection H as <-. eexists. split; [|reflexivity].
  apply search_or_raise_ok in Ex, Ey, Ew, Eh.
  exists mx, my, mw, mh, x, y, w, h. repeat split; assumption.
Qed.

(** The loop appends the pages of the declarations, in their order. *)
Lemma foldM_add_page_order sc l : forall i pages pages',
  foldM (add_page sc) (enumerate i l) pages = inr pages' ->
  (forall k, In k (dict_keys pages) -> k <= i) ->
  exists new,
    pages' = pages ++ new
    /\ Forall2 (fun ip kp => fst kp = fst ip + 1
                             /\ declared_as sc (fst ip + 1) (snd ip) (snd kp))
         (enumerate i l) new.
Proof.
  induction l as [|p l IH]; intros i pages pages' H B; cbn [enumerate foldM] in H.
  - injection H as <-. exists []. split; [now rewrite app_nil_r|constructor].
  - destruct (add_page sc pages (i, p)) as [e|p1] eqn:E; cbn [bind] in H; [discriminate|].
    destruct (add_page_read _ _ _ _ _ E) as (pg & D & ->).
    assert (F : ~ In (i + 1) (dict_keys pages)) by (intros X; apply B in X; lia).
    rewrite (dict_set_fresh _ N.eqb_eq _ _ _ F) in H.
    apply IH in H.
    + destruct H as (new & -> & R). exists ((i + 1, pg) :: new). split.
      * now rewrite <- app_assoc.
      * cbn [enumerate]. constructor; [split; [reflexivity|exact D]|exact R].
    + intros k Hk. unfold dict_keys in Hk. rewrite map_app in Hk.
      apply in_app_or in Hk. cbn [map fst In] in Hk.
      destruct Hk as [Hk|[Hk|[]]]; [apply B in Hk|]; lia.
Qed.

(** X4: when the pages are read without error, there is at least one; the
    pages are numbered 1, 2, ... in the order of their declarations, whatever
    ids the declarations carry: the k-th entry of the table has the number k
    and holds the four attributes of the k-th declaration, read as floats and
    scaled; each page is stored under its number, and there are as many as
    declarations, or the one page of the viewBox when there is no
    declaration. The reading can only fail with [AttributeError] (an
    attribute is missing) or [ValueError] (a value is no float literal).
    Of two declarations with [x] of 0 and of 100, the first is page 1.
    (Lines 85-105.) *)
Theorem pages_are_numbered_in_order (sc : scaling) (svg : bytes) :
  match load_pages sc svg with
  | inl e => e = AttributeError \/ e = ValueError
  | inr pages =>
      pages <> []
      /\ dict_keys pages = nseq 1 (List.length pages)
      /\ pages_ok pages
      /\ (re_findall1 page_re svg <> [] ->
          List.length pages = List.length (re_findall1 page_re svg)
          /\ Forall2 (fun ip kp => fst kp = fst ip + 1
                                   /\ declared_as sc (fst ip + 1) (snd ip) (snd kp))
               (enumerate 0 (re_findall1 page_re svg)) pages)
      /\ (re_findall1 page_re svg = [] -> pages = [(1, viewbox_page sc)])
  end
  /\ load_pages (Scaling 0 0 200 100 200 100 1 1) paged_svg
     = inr [(1, Page 1 0 0 100 100); (2, Page 2 100 0 100 100)].
Proof.
  split; [|vm_compute; reflexivity].
  unfold load_pages.
  pose proof (foldM_add_page sc (re_findall1 page_re svg) 0 [] _ eq_refl) as H.
  pose proof (foldM_add_page_order sc (re_findall1 page_re svg) 0 []) as R.
  destruct (foldM (add_page sc) _ []) as [e|pages] eqn:E; cbn [bind].
  - apply H; [intros k []|intros k p []].
  - destruct H as [Kk Oo]; [intros k []|intros k p []|]. cbn [dict_keys map app] in Kk.
    destruct (R pages eq_refl) as (new & N & F); [intros k []|].
    cbn [app] in N. subst new.
    assert (L : List.length pages = List.length (re_findall1 page_re svg)).
    { rewrite <- (length_map fst pages). fold (dict_keys pages).
      now rewrite Kk, nseq_length. }
    destruct pages as [|kp pages].
    + cbn [ret]. split; [discriminate|]. split; [reflexivity|]. split.
      * split; [repeat constructor; tauto|]. intros k p [H|[]]. now injection H as <- <-.
      * split; [|reflexivity]. intros NE.
        destruct (re_findall1 page_re svg); [congruence|discriminate].
    + cbn [ret]. split; [discriminate|]. split; [now rewrite Kk, L|]. split.
      * split; [rewrite Kk; apply nseq_NoDup|exact Oo].
      * split; [auto|]. intros Z. rewrite Z in L. discriminate.
Qed.

(** ** Document scaling, continued *)




(** ** Placement, continued *)

Lemma pages_ok_get pages k p :
  pages_ok pages -> In (k, p) pages -> dict_get N.eqb pages (page_number p) = Some p.
Proof.
  intros [ND O] H. rewrite (O _ _ H). now apply (dict_get_nodup _ N.eqb_eq).
Qed.

(** X6: placement keeps the ids, the order and the boxes of the objects and
    the places they had; every place it adds to an object is the local
    position of the object on a page that intersects it, and that page is
    found again under the place's page number, so that the later lookups
    [pages[locs['page']]] cannot fail. (Lines 129-138.) *)
Theorem placement_names_known_pages
    (pages : dict N page) (objects : dict bytes object) :
  pages_ok pages ->
  dict_keys (placement pages objects) = dict_keys objects
  /\ Forall2 (fun kv kv' =>
       obj_id (snd kv') = obj_id (snd kv) /\ obj_rect (snd kv') = obj_rect (snd kv)
       /\ exists added,
            page_locs (snd kv') = page_locs (snd kv) ++ added
            /\ forall q, In q added ->
                 exists p, dict_get N.eqb pages (loc_page q) = Some p
                           /\ intersected (page_rect p) (obj_rect (snd kv)) = true
                           /\ q = local_loc p (snd kv))
       objects (placement pages objects).
Proof.
  intros OK. unfold placement. rewrite placement_fold. split.
  - unfold dict_keys. rewrite map_map. reflexivity.
  - induction objects as [|[k o] objects IH]; cbn [map]; constructor; [|exact IH].
    cbn [snd fst]. split; [reflexivity|]. split; [reflexivity|].
    exists (places (dict_values pages) o). split; [reflexivity|].
    intros q Hq. unfold places in Hq. apply in_map_iff in Hq.
    destruct Hq as (p & <- & Hp). apply filter_In in Hp. destruct Hp as [Hp I].
    unfold dict_values in Hp. apply in_map_iff in Hp. destruct Hp as ([k' p'] & <- & Hin).
    exists p'. cbn [snd] in *. split; [|auto].
    cbn [local_loc loc_page]. eapply pages_ok_get; eauto.
Qed.

Lemma placement_names_known_pages_witness :
  exists p, dict_get N.eqb two_pages (loc_page (PageLoc 2 (-2) 2)) = Some p.
Proof.
  assert (OK : pages_ok two_pages).
  { split; [repeat constructor; simpl; intuition discriminate|].
    intros k p [H|[H|[]]]; injection H as <- <-; reflexivity. }
  destruct (placement_names_known_pages two_pages across OK) as [_ F].
  inversion F as [|kv kv' l l' (_ & _ & added & A & P) _ E1 E2]; subst.
  vm_compute in A. destruct added as [|q1 [|q2 [|q3 added]]]; try discriminate.
  destruct (P (PageLoc 2 (-2) 2)) as (p & G & _); [|eauto].
  apply (f_equal (fun l => In (PageLoc 2 (-2) 2) l)) in A. rewrite <- A.
  right. now left.
Defined.

(** ** Synthesis, continued *)

Lemma foldP_app {A S} (f : S -> A -> prog S) l1 l2 s :
  foldP f (l1 ++ l2) s = (s' <~ foldP f l1 s ;; foldP f l2 s').
Proof.
  revert s; induction l1 as [|x l1 IH]; intros s; cbn [app foldP].
  - unfold pret, pbind. destruct (foldP f l2 s). reflexivity.
  - unfold pbind at 1 3. destruct (f s x) as [l [e|s1]]; [reflexivity|].
    rewrite IH. unfold pbind. destruct (foldP f l1 s1) as [la [e|s2]]; [reflexivity|].
    destruct (foldP f l2 s2) as [lb r]. now rewrite app_assoc.
Qed.

Section SynthesisMore.
Variable pages : dict N page.
Variable objects : dict bytes object.
Variable pdf_pages : dict N pdf_page.

Lemma add_link_annots_skip st link_id link_href :
  dict_mem bytes_eqb objects link_id = false ->
  add_link_annots pages objects pdf_pages st (link_id, link_href) = ([], inr st).
Proof. intros H. unfold add_link_annots. now rewrite H. Qed.

Lemma synthesize_filter links : forall st,
  foldP (add_link_annots pages objects pdf_pages) links st
  = foldP (add_link_annots pages objects pdf_pages)
      (filter (fun l => dict_mem bytes_eqb objects (fst l)) links) st.
Proof.
  induction links as [|[id href] links IH]; intros st; [reflexivity|].
  cbn [filter fst]. destruct (dict_mem bytes_eqb objects id) eqn:M.
  - cbn [foldP]. unfold pbind.
    destruct (add_link_annots pages objects pdf_pages st (id, href)) as [l [e|s1]];
      [reflexivity|]. now rewrite IH.
  - cbn [foldP]. rewrite (add_link_annots_skip st id href M). cbn [pbind].
    rewrite IH. destruct (foldP _ _ st). reflexivity.
Qed.

(** Every step of the synthesis prints warnings only. *)
Lemma add_link_annots_prints st link log r :
  add_link_annots pages objects pdf_pages st link = (log, r) ->
  exists ws, log = map Print ws.
Proof.
  destruct link as [id href]. unfold add_link_annots.
  destruct (negb _); [intros H; injection H as <- _; now exists []|].
  destruct (link_action pages objects pdf_pages href) as [e|[w|act]]; cbn.
  - intros H; injection H as <- _. now exists [].
  - intros H; injection H as <- _. now exists [w].
  - intros H; injection H as <- _. now exists [].
Qed.

Lemma synthesize_prints links : forall st log r,
  foldP (add_link_annots pages objects pdf_pages) links st = (log, r) ->
  exists ws, log = map Print ws.
Proof.
  induction links as [|x links IH]; intros st log r H; cbn [foldP] in H.
  - injection H as <- _. now exists [].
  - unfold pbind in H.
    destruct (add_link_annots pages objects pdf_pages st x) as [l1 [e|s1]] eqn:E.
    + injection H as <- _. eapply add_link_annots_prints; eauto.
    + destruct (foldP _ links s1) as [l2 r2] eqn:F. injection H as <- _.
      destruct (add_link_annots_prints _ _ _ _ E) as [w1 ->].
      destruct (IH _ _ _ F) as [w2 ->]. exists (w1 ++ w2). now rewrite map_app.
Qed.

End SynthesisMore.

(** X7: a link whose source id is not among the objects changes nothing
    and prints nothing: the synthesis over a catalogue is the synthesis over
    its links with a catalogued source. (Lines 238-240.) *)
Theorem uncatalogued_sources_are_ignored
    (pages : dict N page) (objects : dict bytes object) (pdf_pages : dict N pdf_page)
    (links : dict bytes bytes) (first_id : N) :
  synthesize pages objects pdf_pages links first_id
  = synthesize pages objects pdf_pages
      (filter (fun l => dict_mem bytes_eqb objects (fst l)) links) first_id.
Proof. apply synthesize_filter. Qed.

Section SynthesisTotal.
Variable pages : dict N page.
Variable objects : dict bytes object.
Variable pdf_pages : dict N pdf_page.

(** Every place of every object names a page that the PDF has too. *)
Hypothesis places_known :
  forall id o q,
    dict_get bytes_eqb objects id = Some o -> In q (page_locs o) ->
    exists p pp, dict_get N.eqb pages (loc_page q) = Some p
                 /\ dict_get N.eqb pdf_pages (page_number p) = Some pp.

Lemma link_action_total href :
  (forall target,
     starts_with (b "#") href = true ->
     dict_get bytes_eqb objects (destination_id href) = Some target ->
     page_locs target <> []) ->
  exists a, link_action pages objects pdf_pages href = inr a.
Proof.
  intros NE. unfold link_action. destruct (starts_with (b "#") href) eqn:S; [|eauto].
  destruct (dict_get bytes_eqb objects (destination_id href)) as [target|] eqn:T; [|eauto].
  destruct (max_y_spec (page_locs target) (NE target eq_refl eq_refl)) as (pl & M & I & _).
  destruct (places_known _ _ _ T I) as (p & pp & P & PP).
  rewrite M. cbn [bind]. unfold dict_item. rewrite P. unfold ret. cbn [bind].
  rewrite PP. cbn [bind]. eauto.
Qed.

Lemma add_link_annots_total st id href :
  (forall target,
     dict_mem bytes_eqb objects id = true ->
     starts_with (b "#") href = true ->
     dict_get bytes_eqb objects (destination_id href) = Some target ->
     page_locs target <> []) ->
  exists log st', add_link_annots pages objects pdf_pages st (id, href) = (log, inr st').
Proof.
  intros NE. unfold add_link_annots, dict_mem in *.
  destruct (dict_get bytes_eqb objects id) as [o|] eqn:O; cbn [negb]; [|unfold pret; eauto].
  destruct (link_action_total href) as [[w|act] ->]; [intros; now apply NE| |].
  - cbn. eauto.
  - unfold lift, pbind, dict_item. rewrite O. unfold ret. cbn [bind].
    destruct (foldM_add_annot_exact pages act o (page_locs o) st) as (st' & new & F & _).
    + intros q Hq. destruct (places_known _ _ _ O Hq) as (p & _ & P & _). eauto.
    + rewrite F. eauto.
Qed.

Lemma synthesize_total links : forall st,
  (forall id href target,
     In (id, href) links ->
     dict_mem bytes_eqb objects id = true ->
     starts_with (b "#") href = true ->
     dict_get bytes_eqb objects (destination_id href) = Some target ->
     page_locs target <> []) ->
  exists log st',
    foldP (add_link_annots pages objects pdf_pages) links st = (log, inr st').
Proof.
  induction links as [|[id href] links IH]; intros st NE; cbn [foldP].
  - unfold pret. eauto.
  - destruct (add_link_annots_total st id href) as (l1 & s1 & ->).
    { intros target. apply NE. now left. }
    destruct (IH s1) as (l2 & s2 & E).
    { intros i h t Hin. apply NE. now right. }
    unfold pbind. rewrite E. eauto.
Qed.

End SynthesisTotal.

(** X8: the synthesis ends without exception when every place of every
    object names a page that has a page object in the PDF, and every internal
    link with a catalogued source and a catalogued target has a target with
    at least one place. All it prints then are warnings. (Lines 238-282.) *)
Theorem synthesis_succeeds
    (pages : dict N page) (objects : dict bytes object) (pdf_pages : dict N pdf_page)
    (links : dict bytes bytes) (first_id : N) :
  (forall id o q,
     dict_get bytes_eqb objects id = Some o -> In q (page_locs o) ->
     exists p pp, dict_get N.eqb pages (loc_page q) = Some p
                  /\ dict_get N.eqb pdf_pages (page_number p) = Some pp) ->
  (forall id href target,
     In (id, href) links ->
     dict_mem bytes_eqb objects id = true ->
     starts_with (b "#") href = true ->
     dict_get bytes_eqb objects (destination_id href) = Some target ->
     page_locs target <> []) ->
  exists ws st,
    synthesize pages objects pdf_pages links first_id = (map Print ws, inr st).
Proof.
  intros PK NE.
  destruct (synthesize_total pages objects pdf_pages PK links (Synth first_id [] []) NE)
    as (log & st & E).
  destruct (synthesize_prints _ _ _ _ _ _ _ E) as [ws ->]. eauto.
Qed.

Lemma synthesis_succeeds_witness :
  exists ws st,
    synthesize one_page placed_objects one_pdf_page
      [(b "a", b "#t"); (b "t", b "#zz")] 7 = (map Print ws, inr st).
Proof.
  apply synthesis_succeeds.
  - intros id o q G Hq. exists (Page 1 0 0 100 100), (PdfPage 3 0).
    cbn [placed_objects dict_get] in G.
    destruct (bytes_eqb id (b "a")); [injection G as <-|].
    + destruct Hq as [<-|[]]. split; reflexivity.
    + destruct (bytes_eqb id (b "t")); [injection G as <-|discriminate].
      destruct Hq as [<-|[]]. split; reflexivity.
  - intros id href target _ _ _ G.
    cbn [placed_objects dict_get] in G.
    destruct (bytes_eqb (destination_id href) (b "a")); [injection G as <-; discriminate|].
    destruct (bytes_eqb (destination_id href) (b "t")); [injection G as <-|]; discriminate.
Defined.

(** ** The ids filed under the pages *)

Lemma filed_append_at d k v :
  Permutation (filed (append_at d k v)) (filed d ++ [v]).
Proof.
  unfold append_at. generalize (eq_refl (get_list d k)).
  generalize (get_list d k) at 1 3 as l.
  induction d as [|[k0 l0] d IH]; intros l E.
  - cbn in E. subst l. reflexivity.
  - unfold get_list in E. cbn [dict_get dict_set] in *.
    destruct (k =? k0) eqn:K.
    + subst l. unfold filed. cbn [map snd List.concat].
      rewrite <- !app_assoc. apply Permutation_app_head.
      apply Permutation_app_comm.
    + unfold filed in *. cbn [map snd List.concat]. rewrite <- app_assoc.
      apply Permutation_app_head. apply IH. exact E.
Qed.

Lemma add_annot_filed pages act o st q st' :
  add_annot pages act o st q = inr st' ->
  Permutation (filed (pdf_page_annots st)) (map annot_id (pdf_annot_objects st)) ->
  Permutation (filed (pdf_page_annots st')) (map annot_id (pdf_annot_objects st')).
Proof.
  unfold add_annot, dict_item.
  destruct (dict_get N.eqb pages (loc_page q)) as [p|]; cbn [bind]; [|discriminate].
  intros E P; injection E as <-. cbn [pdf_page_annots pdf_annot_objects].
  rewrite map_app. cbn [map annot_id].
  eapply perm_trans; [apply filed_append_at|].
  now apply Permutation_app_tail.
Qed.

Lemma foldM_add_annot_filed pages act o locs : forall st st',
  foldM (add_annot pages act o) locs st = inr st' ->
  Permutation (filed (pdf_page_annots st)) (map annot_id (pdf_annot_objects st)) ->
  Permutation (filed (pdf_page_annots st')) (map annot_id (pdf_annot_objects st')).
Proof.
  induction locs as [|q locs IH]; cbn [foldM]; intros st st' H P.
  - now injection H as <-.
  - destruct (add_annot pages act o st q) as [e|s1] eqn:E; cbn [bind] in H; [discriminate|].
    eapply IH; eauto. eapply add_annot_filed; eauto.
Qed.

Lemma add_link_annots_filed pages objects pdf_pages st link log st' :
  add_link_annots pages objects pdf_pages st link = (log, inr st') ->
  Permutation (filed (pdf_page_annots st)) (map annot_id (pdf_annot_objects st)) ->
  Permutation (filed (pdf_page_annots st')) (map annot_id (pdf_annot_objects st')).
Proof.
  destruct link as [id href]. unfold add_link_annots.
  destruct (dict_mem bytes_eqb objects id); simpl.
  2:{ intros H; now injection H as _ <-. }
  destruct (link_action pages objects pdf_pages href) as [e|[w|act]]; simpl.
  - discriminate.
  - intros H; now injection H as _ <-.
  - unfold dict_item. destruct (dict_get bytes_eqb objects id) as [o|]; simpl.
    + destruct (foldM _ _ st) as [e|s] eqn:F; intros H; [discriminate|].
      injection H as _ <-. eapply foldM_add_annot_filed; eauto.
    + discriminate.
Qed.

(** X9: when the synthesis ends, the ids filed under the pages are the ids
    of the annotation objects made, each filed once: every new annotation is
    referred to by exactly one page, and no page refers to an id without
    object. (Lines 263-282.) *)
Theorem every_annotation_is_filed_once
    (pages : dict N page) (objects : dict bytes object) (pdf_pages : dict N pdf_page)
    (links : dict bytes bytes) (first_id : N) (log : list event) (st : synth) :
  synthesize pages objects pdf_pages links first_id = (log, inr st) ->
  Permutation (filed (pdf_page_annots st))
    (map annot_id (pdf_annot_objects st))
  /\ NoDup (filed (pdf_page_annots st)).
Proof.
  intros H.
  assert (P : Permutation (filed (pdf_page_annots st))
                (map annot_id (pdf_annot_objects st))).
  { unfold synthesize in H. revert H.
    assert (P0 : Permutation
                   (filed (pdf_page_annots (Synth first_id [] [])))
                   (map annot_id (pdf_annot_objects (Synth first_id [] []))))
      by reflexivity.
    revert P0. generalize (Synth first_id [] []) as s0. revert log.
    induction links as [|x links IH]; intros log s0 P0 H; cbn [foldP] in H.
    - now injection H as _ <-.
    - unfold pbind in H.
      destruct (add_link_annots pages objects pdf_pages s0 x) as [l1 [e|s1]] eqn:E;
        [discriminate|].
      destruct (foldP _ links s1) as [l2 r] eqn:F. injection H as _ ->.
      eapply IH; [|exact F]. eapply add_link_annots_filed; eauto. }
  split; [exact P|].
  destruct (synthesize_grows _ _ _ _ _ _ _ H) as (new & A & I & _).
  cbn [pdf_annot_objects next_object_id app] in A, I. subst new.
  eapply Permutation_NoDup; [symmetry; exact P|].
  rewrite I. apply nseq_NoDup.
Qed.

Lemma every_annotation_is_filed_once_witness :
  exists log st,
    synthesize offset_pages spanning_objects two_pdf_pages
      [(b "t", b "http://x"); (b "a", b "#t")] 7 = (log, inr st)
    /\ NoDup (filed (pdf_page_annots st)).
Proof.
  destruct (synthesize offset_pages spanning_objects two_pdf_pages
              [(b "t", b "http://x"); (b "a", b "#t")] 7) as [log [e|st]] eqn:E;
    [vm_compute in E; discriminate|].
  exists log, st. split; [reflexivity|].
  now apply (every_annotation_is_filed_once _ _ _ _ _ _ _ E).
Defined.

(** ** Intersection, continued *)

(** X10: the test is symmetric: it does not matter which of the two
    rectangles is the page and which the object. (Lines 15-23.) *)
Theorem intersected_sym (a c : rect) : intersected a c = intersected c a.
Proof.
  unfold intersected, gtb.
  destruct (PrimFloat.ltb (x2 c) (x1 a)), (PrimFloat.ltb (x2 a) (x1 c)),
    (PrimFloat.ltb (y2 c) (y1 a)), (PrimFloat.ltb (y2 a) (y1 c)); reflexivity.
Qed.

Lemma add_nan x w : is_nan x = true -> is_nan (x + w)%float = true.
Proof.
  rewrite !is_nan_spec, add_spec.
  destruct (Prim2SF x); try discriminate. intros _.
  destruct (Prim2SF w); reflexivity.
Qed.

Lemma ltb_nan_l x y : is_nan x = true -> PrimFloat.ltb x y = false.
Proof. intros H. now rewrite ltb_key, H. Qed.

Lemma ltb_nan_r x y : is_nan y = true -> PrimFloat.ltb x y = false.
Proof. intros H. rewrite ltb_key, H. now destruct (is_nan x). Qed.

(** X11: a rectangle whose x is a NaN passes the test on the x axis against
    every rectangle, since no comparison with a NaN holds: the answer is
    that of the y axis alone, and a rectangle whose x and y are both NaN
    intersects everything. A page declared with [x] and [y] of [nan] thus
    takes every object. (Lines 19-23.) *)
Theorem nan_origin_passes_the_test (a c : rect) :
  is_nan (rx a) = true ->
  intersected a c = negb (gtb (y1 a) (y2 c) || PrimFloat.ltb (y2 a) (y1 c))
  /\ (is_nan (ry a) = true -> intersected a c = true).
Proof.
  intros Hx. unfold intersected, gtb, x1, x2, y1, y2.
  rewrite (ltb_nan_r _ (rx a) Hx), (ltb_nan_l (rx a + rw a) _ (add_nan _ _ Hx)).
  cbn [orb]. split.
  - destruct (_ || _); reflexivity.
  - intros Hy.
    now rewrite (ltb_nan_r _ (ry a) Hy), (ltb_nan_l (ry a + rh a) _ (add_nan _ _ Hy)).
Qed.

Lemma nan_origin_passes_the_test_witness :
  intersected (Rect nan nan 10 10) (Rect 500 700 1 1) = true.
Proof.
  apply (nan_origin_passes_the_test (Rect nan nan 10 10) (Rect 500 700 1 1));
    vm_compute; reflexivity.
Defined.

(** ** The place of a target, continued *)

Lemma max_y_from_keeps l : forall best,
  (forall q, In q l -> gtb (loc_y q) (loc_y best) = false) ->
  max_y_from best l = best.
Proof.
  induction l as [|q l IH]; intros best H; cbn [max_y_from]; [reflexivity|].
  rewrite (H q) by now left. apply IH. intros q' Hq'. apply H. now right.
Qed.

Lemma max_y_from_app l1 l2 : forall best,
  max_y_from best (l1 ++ l2) = max_y_from (max_y_from best l1) l2.
Proof.
  induction l1 as [|q l1 IH]; intros best; cbn [app max_y_from]; [reflexivity|].
  apply IH.
Qed.

(** X12: among the places of a target, the one chosen is the first that
    none exceeds: a place with a y greater than every earlier one, and that
    no later one exceeds, is the choice. A later place with the same y, or
    with a NaN, does not replace it. (Line 250.) *)
Theorem first_greatest_place_is_chosen (l1 l2 : list page_loc) (pl : page_loc) :
  (forall q, In q l1 -> PrimFloat.ltb (loc_y q) (loc_y pl) = true) ->
  (forall q, In q l2 -> gtb (loc_y q) (loc_y pl) = false) ->
  max_y (l1 ++ pl :: l2) = inr pl.
Proof.
  intros H1 H2. destruct l1 as [|q0 l1]; cbn [app max_y]; unfold ret; f_equal.
  - now apply max_y_from_keeps.
  - rewrite max_y_from_app. cbn [max_y_from].
    destruct (max_y_from_spec l1 q0) as (I & _ & _).
    unfold gtb at 1. rewrite (H1 _ I). now apply max_y_from_keeps.
Qed.

Lemma first_greatest_place_is_chosen_witness :
  max_y [PageLoc 1 0 50; PageLoc 2 0 80; PageLoc 3 0 80; PageLoc 4 0 nan]
  = inr (PageLoc 2 0 80).
Proof.
  apply (first_greatest_place_is_chosen [PageLoc 1 0 50]
           [PageLoc 3 0 80; PageLoc 4 0 nan] (PageLoc 2 0 80)).
  - intros q [<-|[]]. vm_compute. reflexivity.
  - intros q [<-|[<-|[]]]; vm_compute; reflexivity.
Defined.

(** ** Synthesis: what makes it fail *)

(** X13: an internal link with a catalogued source and a placed target ends
    the synthesis with [KeyError] when the PDF has no page object for the
    page of a place of the target that none exceeds: the links before it
    have been handled, the links after it are not looked at.
    (Lines 250-252.) *)
Theorem missing_page_object_is_key_error
    (pages : dict N page) (objects : dict bytes object) (pdf_pages : dict N pdf_page)
    (link_id link_href : bytes) (target : object)
    (before after : dict bytes bytes) (first_id : N) (log : list event) (st : synth) :
  dict_mem bytes_eqb objects link_id = true ->
  starts_with (b "#") link_href = true ->
  dict_get bytes_eqb objects (destination_id link_href) = Some target ->
  page_locs target <> [] ->
  (forall q p, In q (page_locs target) ->
     (forall q', In q' (page_locs target) -> gtb (loc_y q') (loc_y q) = false) ->
     dict_get N.eqb pages (loc_page q) = Some p ->
     dict_get N.eqb pdf_pages (page_number p) = None) ->
  synthesize pages objects pdf_pages before first_id = (log, inr st) ->
  add_link_annots pages objects pdf_pages st (link_id, link_href) = ([], inl KeyError)
  /\ synthesize pages objects pdf_pages (before ++ (link_id, link_href) :: after) first_id
     = (log, inl KeyError).
Proof.
  intros M S T NE NP B.
  assert (E : add_link_annots pages objects pdf_pages st (link_id, link_href)
              = ([], inl KeyError)).
  { unfold add_link_annots, link_action. rewrite M, S, T. cbn [negb].
    destruct (max_y_spec (page_locs target) NE) as (pl & -> & I & G). cbn [bind].
    unfold dict_item.
    destruct (dict_get N.eqb pages (loc_page pl)) as [p|] eqn:P; [|reflexivity].
    unfold ret. cbn [bind]. now rewrite (NP _ _ I G P). }
  split; [exact E|].
  unfold synthesize in *. rewrite foldP_app, B. cbn [pbind foldP].
  rewrite E. cbn [pbind]. now rewrite app_nil_r.
Qed.

Lemma missing_page_object_is_key_error_witness :
  synthesize offset_pages spanning_objects one_pdf_page
    [(b "t", b "http://x"); (b "a", b "#t"); (b "r", b "#a")] 7
  = ([], inl KeyError).
Proof.
  destruct (synthesize offset_pages spanning_objects one_pdf_page
              [(b "t", b "http://x")] 7) as [log [e|st]] eqn:B;
    [vm_compute in B; discriminate|].
  assert (L : log = []) by (vm_compute in B; now injection B as <- _).
  subst log.
  apply (missing_page_object_is_key_error offset_pages spanning_objects one_pdf_page
           (b "a") (b "#t")
           (Object (b "t") 95 50 10 10 [PageLoc 1 95 50; PageLoc 2 (-5) 80])
           [(b "t", b "http://x")] [(b "r", b "#a")] 7 [] st).
  - vm_compute. reflexivity.
  - vm_compute. reflexivity.
  - vm_compute. reflexivity.
  - discriminate.
  - intros q p [<-|[<-|[]]] G P.
    + specialize (G (PageLoc 2 (-5) 80) (or_intror (or_introl eq_refl))).
      vm_compute in G. discriminate.
    + vm_compute in P. injection P as <-. reflexivity.
  - exact B.
Defined.

(** X14: a link whose source object lies on no page makes no annotation,
    takes no id and prints nothing, once its action is resolved.
    (Lines 262-263.) *)
Theorem unplaced_source_makes_nothing
    (pages : dict N page) (objects : dict bytes object) (pdf_pages : dict N pdf_page)
    (st : synth) (link_id link_href : bytes) (o : object) (act : action) :
  dict_get bytes_eqb objects link_id = Some o ->
  page_locs o = [] ->
  link_action pages objects pdf_pages link_href = inr (inr act) ->
  add_link_annots pages objects pdf_pages st (link_id, link_href) = ([], inr st).
Proof.
  intros O L A. unfold add_link_annots.
  rewrite (dict_mem_get _ _ _ O), A. cbn [negb]. unfold lift, pbind, dict_item.
  rewrite O. unfold ret. cbn [bind]. now rewrite L.
Qed.

Lemma unplaced_source_makes_nothing_witness :
  add_link_annots one_page stray_objects one_pdf_page (Synth 7 [] [])
    (b "t", b "http://x") = ([], inr (Synth 7 [] [])).
Proof.
  apply (unplaced_source_makes_nothing one_page stray_objects one_pdf_page (Synth 7 [] [])
           (b "t") (b "http://x") (Object (b "t") 500 500 10 10 [])
           (uri_action (b "http://x")));
    vm_compute; reflexivity.
Defined.

(** ** Links, continued *)

(** X15: escaping is idempotent: an escaped target has no parenthesis left,
    so escaping it again changes nothing. (Line 150.) *)
Theorem escape_parens_idempotent (href : bytes) :
  escape_parens (escape_parens href) = escape_parens href.
Proof. apply escape_parens_id, escape_parens_no_paren. Qed.

(** ** Replacement templates *)

Lemma plain_app x y : plain (x ++ y) <-> plain x /\ plain y.
Proof. unfold plain. rewrite in_app_iff. tauto. Qed.

Lemma plain_check s :
  forallb (fun c => negb (Ascii.eqb c "\"%char)) s = true -> plain s.
Proof.
  unfold plain. intros H I. rewrite forallb_forall in H. specialize (H _ I).
  now rewrite Ascii.eqb_refl in H.
Qed.

Lemma plain_digits s : forallb is_digit s = true -> plain s.
Proof.
  unfold plain. intros H I. rewrite forallb_forall in H. specialize (H _ I).
  discriminate.
Qed.

Lemma plain_dec n : plain (dec n).
Proof. apply plain_digits, dec_digits. Qed.

Lemma plain_concat l : (forall s, In s l -> plain s) -> plain (List.concat l).
Proof.
  induction l as [|s l IH]; intros H; cbn [List.concat]; [intros []|].
  apply plain_app. split; [apply H; now left|apply IH; intros; apply H; now right].
Qed.

Lemma plain_cons c s : c <> "\"%char -> plain s -> plain (c :: s).
Proof. intros C P [I|I]; [congruence|now apply P]. Qed.

Lemma plain_app_intro x y : plain x -> plain y -> plain (x ++ y).
Proof. intros. now apply plain_app. Qed.

Ltac plain_parts :=
  repeat first
    [ assumption
    | apply plain_dec
    | apply plain_check; reflexivity
    | apply plain_app_intro
    | apply plain_cons; [discriminate|] ].

Lemma parse_template_normal c t :
  parse_template TNormal (c :: t)
  = (if Ascii.eqb c "\"%char then parse_template TEsc t
     else l <- parse_template TNormal t ;; ret (TChar c :: l)).
Proof. reflexivity. Qed.

(** A text without backslash in front of a template stands for itself. *)
Lemma parse_template_plain_app p t :
  plain p ->
  parse_template TNormal (p ++ t)
  = (l <- parse_template TNormal t ;; ret (map TChar p ++ l)).
Proof.
  induction p as [|c p IH]; intros P; cbn [app map].
  - destruct (parse_template TNormal t); reflexivity.
  - rewrite parse_template_normal.
    destruct (Ascii.eqb_spec c "\"%char) as [->|_]; [exfalso; apply P; now left|].
    rewrite IH by (intros I; apply P; now right).
    destruct (parse_template TNormal t); reflexivity.
Qed.

Lemma parse_template_plain s :
  plain s -> parse_template TNormal s = inr (map TChar s).
Proof.
  intros P. pose proof (parse_template_plain_app s [] P) as H.
  rewrite app_nil_r in H. rewrite H.
  change (parse_template TNormal []) with (@inr exn (list titem) []).
  cbn [bind]. unfold ret. now rewrite app_nil_r.
Qed.

(** The escape [\n] in a template stands for a newline. *)
Lemma parse_template_newline p t :
  plain p -> plain t ->
  parse_template TNormal (p ++ "\"%char :: "n"%char :: t)
  = inr (map TChar (p ++ nl :: t)).
Proof.
  intros P T. rewrite parse_template_plain_app by assumption.
  rewrite parse_template_normal. cbn [Ascii.eqb Bool.eqb].
  change (parse_template TEsc ("n"%char :: t))
    with (l <- parse_template TNormal t ;; ret (TChar nl :: l)).
  rewrite parse_template_plain by assumption. cbn [bind]. unfold ret.
  now rewrite map_app.
Qed.

Lemma expand_chars s m : expand (map TChar s) m = s.
Proof.
  unfold expand. induction s as [|c s IH]; cbn [map flat_map app]; [reflexivity|].
  now rewrite IH.
Qed.

Lemma re_sub_template_newline r p t s :
  plain p -> plain t ->
  re_sub_template r (p ++ "\"%char :: "n"%char :: t) s = inr (re_sub r (p ++ nl :: t) s).
Proof.
  intros P T. unfold re_sub_template. rewrite parse_template_newline by assumption.
  cbn [bind]. unfold ret, re_sub, re_sub_fn. f_equal.
  apply flat_map_ext. intros [c|m]; [reflexivity|]. now rewrite expand_chars.
Qed.

(** A letter that is no escape, after the first backslash of a template. *)
Lemma parse_template_bad_escape p c t :
  plain p -> is_letter c = true -> dict_mem Ascii.eqb escapes c = false ->
  c <> "g"%char ->
  parse_template TNormal (p ++ "\"%char :: c :: t) = inl ReError.
Proof.
  intros P L E G. rewrite parse_template_plain_app by assumption.
  rewrite parse_template_normal. cbn [Ascii.eqb Bool.eqb].
  change (parse_template TEsc (c :: t))
    with (if Ascii.eqb c "g"%char then parse_template TG t
          else if Ascii.eqb c "0"%char then parse_template (TOct [] 2) t
          else if is_digit c then parse_template (TDig1 (code c - 48)) t
          else
            match dict_get Ascii.eqb escapes c with
            | Some n => l <- parse_template TNormal t ;; ret (TChar (ascii_of_N n) :: l)
            | None =>
                if is_letter c then raise ReError
                else l <- parse_template TNormal t ;; ret (TChar "\"%char :: TChar c :: l)
            end).
  destruct (Ascii.eqb_spec c "g"%char) as [->|_]; [congruence|].
  destruct (Ascii.eqb_spec c "0"%char) as [->|_]; [discriminate|].
  assert (D : is_digit c = false).
  { unfold is_letter, is_digit in *. destruct (code c <=? 57) eqn:C;
      [|now rewrite andb_false_r].
    apply N.leb_le in C. destruct (48 <=? code c); [|reflexivity].
    apply orb_true_iff in L. destruct L as [L|L]; apply andb_true_iff in L;
      destruct L as [L _]; apply N.leb_le in L; lia. }
  rewrite D. unfold dict_mem in E.
  destruct (dict_get Ascii.eqb escapes c); [discriminate|]. now rewrite L.
Qed.

(** ** The list of a page *)

Lemma lstrip_keeps c s : In c s -> is_space c = false -> In c (lstrip s).
Proof.
  induction s as [|d s IH]; intros I S; [destruct I|]. cbn [lstrip].
  destruct (is_space d) eqn:D; [|exact I].
  destruct I as [->|I]; [congruence|auto].
Qed.

Lemma strip_keeps c s : In c s -> is_space c = false -> In c (strip s).
Proof.
  intros I S. unfold strip, rstrip. rewrite <- in_rev. apply lstrip_keeps; [|exact S].
  rewrite <- in_rev. now apply lstrip_keeps.
Qed.

Lemma strip_sub c s : In c (strip s) -> In c s.
Proof.
  intros I. destruct (lstrip_suffix s) as [w E]. rewrite E. apply in_or_app. right.
  destruct (rstrip_prefix (lstrip s)) as [w' E']. rewrite E'. apply in_or_app. now left.
Qed.

Lemma plain_strip s : plain s -> plain (strip s).
Proof. intros P I. apply P. now apply strip_sub. Qed.

Lemma plain_ref_lines ids : plain (List.concat (map ref_line ids)).
Proof.
  apply plain_concat. intros s I. apply in_map_iff in I. destruct I as (id & <- & _).
  unfold ref_line. change (nl :: dec id ++ b " 0 R" ++ [nl])
    with ([nl] ++ dec id ++ b " 0 R" ++ [nl]).
  rewrite !plain_app. repeat split; try apply plain_dec; apply plain_check; reflexivity.
Qed.

Lemma ref_lines_nonempty id ids :
  strip (List.concat (map ref_line (id :: ids))) <> [].
Proof.
  destruct (dec_head id) as (d & ds & E & D).
  assert (I : In d (strip (List.concat (map ref_line (id :: ids))))).
  { apply strip_keeps.
    - cbn [map List.concat]. apply in_or_app. left. unfold ref_line. rewrite E.
      right. now left.
    - destruct (is_space d) eqn:S; [|reflexivity].
      apply is_space_not_word in S. now rewrite (is_digit_word _ D) in S. }
  intros Z. now rewrite Z in I.
Qed.

Lemma replace_annots_pure deleted page_annots m :
  replace_annots_for_page deleted page_annots m
  = inr (match get_list page_annots (int_of_digits (grp m 1)) with
         | [] => re_sub_fn annots_re (fun _ => None) (group0 m)
         | id :: ids =>
             re_sub open_re
               (b "<<" ++ nl :: b "/Annots [ "
                ++ strip (List.concat (map ref_line (id :: ids))) ++ b " ]")
               (re_sub_fn annots_re (fun _ => None) (group0 m))
         end).
Proof.
  unfold replace_annots_for_page. rewrite new_raw_annots_eq.
  destruct (get_list page_annots (int_of_digits (grp m 1))) as [|id ids];
    [reflexivity|].
  pose proof (ref_lines_nonempty id ids) as NE.
  destruct (strip (List.concat (map ref_line (id :: ids)))) as [|c raw] eqn:S;
    [congruence|]. rewrite <- S.
  change (b "<<\n/Annots [ " ++ strip (List.concat (map ref_line (id :: ids))) ++ b " ]")
    with (b "<<" ++ "\"%char :: "n"%char
          :: (b "/Annots [ " ++ strip (List.concat (map ref_line (id :: ids))) ++ b " ]")).
  rewrite re_sub_template_newline.
  - reflexivity.
  - apply plain_check. reflexivity.
  - rewrite !plain_app. repeat split; try (apply plain_check; reflexivity).
    apply plain_strip, plain_ref_lines.
Qed.

Lemma page_rewrite_pure deleted page_annots qdf :
  exists q, rewrite_pages deleted page_annots qdf = inr q.
Proof.
  unfold rewrite_pages. eexists.
  apply (re_sub_fnM_pure _ _
           (fun m => match get_list page_annots (int_of_digits (grp m 1)) with
                     | [] => re_sub_fn annots_re (fun _ => None) (group0 m)
                     | id :: ids =>
                         re_sub open_re
                           (b "<<" ++ nl :: b "/Annots [ "
                            ++ strip (List.concat (map ref_line (id :: ids))) ++ b " ]")
                           (re_sub_fn annots_re (fun _ => None) (group0 m))
                     end)).
  intros m0. now rewrite replace_annots_pure.
Qed.

(** X16: the rewrite of a page block never raises, and the references to
    deleted annotations play no part in it. Every annotation list of the
    block is cut out; when the page has new annotations, a list of the
    references to them, in the order of their ids, is put after every [<<]
    that starts a line of the block, and nothing else changes.
    (Lines 284-308.) *)
Theorem page_rewrite_never_fails
    (deleted : list (N * N)) (page_annots : dict N (list N)) (m : rmatch)
    (qdf : bytes) :
  replace_annots_for_page deleted page_annots m
  = inr (match get_list page_annots (int_of_digits (grp m 1)) with
         | [] => re_sub_fn annots_re (fun _ => None) (group0 m)
         | id :: ids =>
             re_sub open_re
               (b "<<" ++ nl :: b "/Annots [ "
                ++ strip (List.concat (map ref_line (id :: ids))) ++ b " ]")
               (re_sub_fn annots_re (fun _ => None) (group0 m))
         end)
  /\ exists q, rewrite_pages deleted page_annots qdf = inr q.
Proof. split; [apply replace_annots_pure|apply page_rewrite_pure]. Qed.

(** ** The annotation objects in the template of the splice *)

Lemma plain_pad6 s : plain s -> plain (pad6 s).
Proof.
  intros P. unfold pad6. apply plain_app. split; [|exact P].
  intros I. apply repeat_spec in I. discriminate.
Qed.

Lemma plain_fixed6 neg n : plain (fixed6 neg n).
Proof.
  unfold fixed6. rewrite !plain_app. repeat split.
  - destruct neg; apply plain_check; reflexivity.
  - apply plain_dec.
  - apply plain_check. reflexivity.
  - apply plain_pad6, plain_dec.
Qed.

Lemma plain_fmt_f x : plain (fmt_f x).
Proof.
  unfold fmt_f. destruct (Prim2SF x) as [s|s| |s m e]; try apply plain_fixed6.
  - destruct s; apply plain_check; reflexivity.
  - apply plain_check. reflexivity.
Qed.

Lemma plain_render_action a :
  (forall body, a = URI body -> plain body) -> plain (render_action a).
Proof.
  intros H. destruct a as [i g x y|body]; cbn [render_action]; [|now apply H].
  rewrite !plain_app.
  repeat split; try apply plain_dec; try apply plain_fmt_f; apply plain_check; reflexivity.
Qed.

(** The text of an annotation object up to its action, and after it. *)
Lemma render_annot_split a :
  exists pre post,
    render_annot a = pre ++ render_action (annot_action a) ++ post
    /\ plain pre /\ plain post.
Proof.
  destruct a as [id act [[[r1 r2] r3] r4]]. cbn [render_annot annot_rect annot_id annot_action].
  exists (nl :: b "%QDF: ignore_newline" ++ nl :: dec id ++ b " 0 obj" ++ nl
          :: b "<<" ++ nl :: b "  /Type /Annot /Subtype /Link /Border [ 0 0 0 ]"
          ++ b " /A << /S "),
    (b " >>" ++ b " /Rect [ " ++ fmt_f r1 ++ b " " ++ fmt_f r2 ++ b " " ++ fmt_f r3
     ++ b " " ++ fmt_f r4 ++ b " ]" ++ nl :: b ">>" ++ nl :: b "endobj" ++ [nl; nl]).
  split; [|split].
  - change (nl :: b "%QDF: ignore_newline" ++ nl :: dec id ++ b " 0 obj" ++ nl
            :: b "<<" ++ nl :: b "  /Type /Annot /Subtype /Link /Border [ 0 0 0 ]"
            ++ b " /A << /S ")
      with ((nl :: b "%QDF: ignore_newline") ++ (nl :: dec id) ++ b " 0 obj" ++ (nl
            :: b "<<") ++ (nl :: b "  /Type /Annot /Subtype /Link /Border [ 0 0 0 ]")
            ++ b " /A << /S ").
    change (nl :: b "%QDF: ignore_newline" ++ nl :: dec id ++ b " 0 obj" ++ nl
            :: b "<<" ++ nl :: b "  /Type /Annot /Subtype /Link /Border [ 0 0 0 ]"
            ++ b " /A << /S " ++ render_action act ++ b " >>"
            ++ b " /Rect [ " ++ fmt_f r1 ++ b " " ++ fmt_f r2 ++ b " " ++ fmt_f r3 ++ b " "
            ++ fmt_f r4 ++ b " ]" ++ nl :: b ">>" ++ nl :: b "endobj" ++ [nl; nl])
      with ((nl :: b "%QDF: ignore_newline") ++ (nl :: dec id) ++ b " 0 obj" ++ (nl
            :: b "<<") ++ (nl :: b "  /Type /Annot /Subtype /Link /Border [ 0 0 0 ]")
            ++ b " /A << /S " ++ render_action act ++ b " >>"
            ++ b " /Rect [ " ++ fmt_f r1 ++ b " " ++ fmt_f r2 ++ b " " ++ fmt_f r3 ++ b " "
            ++ fmt_f r4 ++ b " ]" ++ nl :: b ">>" ++ nl :: b "endobj" ++ [nl; nl]).
    now rewrite <- !app_assoc.
  - plain_parts.
  - pose proof (plain_fmt_f r1). pose proof (plain_fmt_f r2).
    pose proof (plain_fmt_f r3). pose proof (plain_fmt_f r4). plain_parts.
Qed.

Lemma plain_render_annot a :
  (forall body, annot_action a = URI body -> plain body) -> plain (render_annot a).
Proof.
  intros H. destruct (render_annot_split a) as (pre & post & -> & P & Q).
  rewrite !plain_app. repeat split; auto. now apply plain_render_action.
Qed.

Lemma plain_render_annots annots :
  (forall a body, In a annots -> annot_action a = URI body -> plain body) ->
  plain (List.concat (map render_annot annots)).
Proof.
  intros H. apply plain_concat. intros s I. apply in_map_iff in I.
  destruct I as (a & <- & Ia). apply plain_render_annot. intros body. now apply H.
Qed.

(** X17: when no target has a backslash, the edit does not raise: the
    annotation objects go, as they were written, before every [xref] line of
    the file with its pages rewritten, followed by a newline.
    (Lines 303-315.) *)
Theorem edit_succeeds_without_backslash
    (deleted : list (N * N)) (page_annots : dict N (list N)) (annots : list annot)
    (qdf : bytes) :
  (forall a body, In a annots -> annot_action a = URI body -> plain body) ->
  exists q,
    rewrite_pages deleted page_annots qdf = inr q
    /\ edit_qdf deleted page_annots (map render_annot annots) qdf
       = inr (re_sub xref_re
                (List.concat (map render_annot annots) ++ nl :: b "xref") q).
Proof.
  intros H.
  destruct (page_rewrite_pure deleted page_annots qdf) as [q Q].
  exists q. split; [exact Q|]. unfold edit_qdf. rewrite Q. cbn [bind].
  unfold splice_objects.
  change (b "\nxref") with ("\"%char :: "n"%char :: b "xref").
  apply re_sub_template_newline.
  - now apply plain_render_annots.
  - apply plain_check. reflexivity.
Qed.

Lemma edit_succeeds_without_backslash_witness :
  exists q,
    rewrite_pages [(4, 0)] [(1, [7])] sample_qdf = inr q
    /\ edit_qdf [(4, 0)] [(1, [7])]
         (map render_annot [Annot 7 (uri_action (b "http://x")) (7.5, 60, 30, 30)%float])
         sample_qdf
       = inr (re_sub xref_re
                (List.concat
                   (map render_annot
                      [Annot 7 (uri_action (b "http://x")) (7.5, 60, 30, 30)%float])
                 ++ nl :: b "xref") q).
Proof.
  apply edit_succeeds_without_backslash.
  intros a body [<-|[]] E. injection E as <-. apply plain_check. reflexivity.
Defined.

(** X18: a target with a backslash before a letter that is no escape of a
    replacement template makes the edit raise [re.error], whatever the file
    is: the annotation objects are used as a template, whose escapes are
    looked at before the file is searched. (Lines 260 and 310-315.) *)
Theorem backslash_in_target_breaks_edit
    (deleted : list (N * N)) (page_annots : dict N (list N))
    (before after : list annot) (a : annot) (u v : bytes) (c : ascii) (qdf : bytes) :
  (forall a' body, In a' before -> annot_action a' = URI body -> plain body) ->
  annot_action a = uri_action (u ++ "\"%char :: c :: v) ->
  plain u ->
  is_letter c = true -> dict_mem Ascii.eqb escapes c = false -> c <> "g"%char ->
  edit_qdf deleted page_annots (map render_annot (before ++ a :: after)) qdf
  = inl ReError.
Proof.
  intros HB HA PU L E G.
  destruct (page_rewrite_pure deleted page_annots qdf) as [q Q].
  unfold edit_qdf. rewrite Q. cbn [bind].
  unfold splice_objects, re_sub_template.
  destruct (render_annot_split a) as (pre & post & R & P & _).
  rewrite HA in R. cbn [uri_action render_action] in R.
  rewrite map_app, concat_app. cbn [map List.concat]. rewrite R.
  replace ((List.concat (map render_annot before)
            ++ (pre ++ (b "/URI /URI (" ++ (u ++ "\"%char :: c :: v) ++ b ")") ++ post)
            ++ List.concat (map render_annot after)) ++ b "\nxref")
    with ((List.concat (map render_annot before) ++ pre ++ b "/URI /URI (" ++ u)
          ++ "\"%char :: c
          :: (v ++ b ")" ++ post ++ List.concat (map render_annot after) ++ b "\nxref")).
  - rewrite parse_template_bad_escape; auto.
    pose proof (plain_render_annots before HB). plain_parts.
  - rewrite <- ?app_assoc. cbn [app]. rewrite <- ?app_assoc. reflexivity.
Qed.

Lemma backslash_in_target_breaks_edit_witness :
  edit_qdf [] [(1, [7])]
    (map render_annot [Annot 7 (uri_action (b "file:c:\docs")) (7.5, 60, 30, 30)%float])
    sample_qdf
  = inl ReError.
Proof.
  apply (backslash_in_target_breaks_edit [] [(1, [7])] [] []
           (Annot 7 (uri_action (b "file:c:\docs")) (7.5, 60, 30, 30)%float)
           (b "file:c:") (b "ocs") "d"%char sample_qdf).
  - intros a' body [].
  - reflexivity.
  - apply plain_check. reflexivity.
  - reflexivity.
  - reflexivity.
  - discriminate.
Defined.

(** ** The exceptions of the stages *)

Lemma group_ref_error name e : group_ref name = inl e -> e = ReError \/ e = IndexError.
Proof.
  unfold group_ref. destruct name as [|c name]; [intros H; injection H as <-; auto|].
  destruct (forallb is_digit (c :: name)).
  - destruct (int_of_digits (c :: name) =? 0); [discriminate|].
    intros H; injection H as <-; auto.
  - destruct (is_identifier (c :: name)); intros H; injection H as <-; auto.
Qed.

Ltac template_cases IH H :=
  repeat
    match type of H with
    | (if ?c then _ else _) = inl _ => destruct c
    | match ?m with Some _ => _ | None => _ end = inl _ => destruct m
    | bind ?m _ = inl _ =>
        let E := fresh "E" in
        destruct m eqn:E; cbn [bind] in H;
        [injection H as <-;
         first [now apply group_ref_error in E | now apply IH in E | idtac]|]
    | ret _ = inl _ => discriminate H
    | raise _ = inl _ => injection H as <-; auto
    | parse_template _ _ = inl _ => now apply IH in H
    end.

Lemma parse_template_error t : forall st e,
  parse_template st t = inl e -> e = ReError \/ e = IndexError.
Proof.
  induction t as [|c t IH]; intros st e H.
  - destruct st; cbn in H; try discriminate; injection H as <-; auto.
  - assert (Hn : forall e0,
              (if Ascii.eqb c "\"%char then parse_template TEsc t
               else l <- parse_template TNormal t ;; ret (TChar c :: l)) = inl e0 ->
              e0 = ReError \/ e0 = IndexError).
    { intros e0 H0. template_cases IH H0. }
    destruct st as [ | | |name|ds [|more]|o1|o1 o2];
      cbn [parse_template] in H; cbv zeta in H.
    + now apply Hn.
    + template_cases IH H.
    + template_cases IH H.
    + template_cases IH H.
    + match type of H with
      | bind ?m _ = _ => destruct m eqn:E; cbn [bind] in H; [|discriminate]
      end.
      injection H as <-. now apply Hn.
    + destruct (is_octal c); [now apply IH in H|].
      match type of H with
      | bind ?m _ = _ => destruct m eqn:E; cbn [bind] in H; [|discriminate]
      end.
      injection H as <-. now apply Hn.
    + template_cases IH H.
    + template_cases IH H.
Qed.

Lemma edit_qdf_error deleted page_annots annot_objects qdf e :
  edit_qdf deleted page_annots annot_objects qdf = inl e ->
  e = ReError \/ e = IndexError.
Proof.
  unfold edit_qdf. destruct (page_rewrite_pure deleted page_annots qdf) as [q ->].
  cbn [bind]. unfold splice_objects, re_sub_template.
  destruct (parse_template TNormal _) as [e0|items] eqn:E; cbn [bind]; [|discriminate].
  intros H; injection H as <-. now apply parse_template_error in E.
Qed.

Lemma load_pages_error sc svg e :
  load_pages sc svg = inl e -> e = AttributeError \/ e = ValueError.
Proof.
  unfold load_pages. intros H.
  pose proof (foldM_add_page sc (re_findall1 page_re svg) 0 [] _ eq_refl) as F.
  destruct (foldM (add_page sc) _ []) as [e0|pages]; cbn [bind] in H.
  - injection H as <-. apply F; [intros k []|intros k p []].
  - destruct pages; discriminate.
Qed.

Lemma load_objects_error out e : load_objects out = inl e -> e = ValueError.
Proof.
  unfold load_objects. intros H.
  pose proof (foldM_add_object (re_finditer bbox_re out) [] _ eq_refl) as F.
  now rewrite H in F.
Qed.

Lemma first_free_id_error qdf e : first_free_id qdf = inl e -> e = AttributeError.
Proof.
  unfold first_free_id. intros H.
  bind_step H e0 m E; [injection H as <-; now apply search_or_raise_error in E|].
  discriminate.
Qed.

Section SynthesisErrors.
Variable pages : dict N page.
Variable objects : dict bytes object.
Variable pdf_pages : dict N pdf_page.

Lemma link_action_error href e :
  link_action pages objects pdf_pages href = inl e -> e = ValueError \/ e = KeyError.
Proof.
  unfold link_action. destruct (starts_with _ _); [|discriminate].
  destruct (dict_get bytes_eqb objects _) as [target|]; [|discriminate].
  destruct (page_locs target) as [|q0 l]; cbn [max_y];
    [intros H; injection H as <-; auto|].
  unfold ret at 1. cbn [bind]. unfold dict_item.
  destruct (dict_get N.eqb pages _) as [p|]; [|intros H; injection H as <-; auto].
  unfold ret at 1. cbn [bind].
  destruct (dict_get N.eqb pdf_pages _) as [pp|]; [discriminate|].
  intros H; injection H as <-; auto.
Qed.

Lemma foldM_add_annot_error act o locs : forall st e,
  foldM (add_annot pages act o) locs st = inl e -> e = KeyError.
Proof.
  induction locs as [|q locs IH]; intros st e H; cbn [foldM] in H; [discriminate|].
  unfold add_annot at 1, dict_item in H.
  destruct (dict_get N.eqb pages (loc_page q)) as [p|]; cbn [bind] in H.
  - unfold ret in H. cbn [bind] in H. now apply IH in H.
  - now injection H as <-.
Qed.

Lemma add_link_annots_error st link log e :
  add_link_annots pages objects pdf_pages st link = (log, inl e) ->
  e = ValueError \/ e = KeyError.
Proof.
  destruct link as [id href]. unfold add_link_annots.
  destruct (dict_mem bytes_eqb objects id); simpl; [|discriminate].
  destruct (link_action pages objects pdf_pages href) as [e0|[w|act]] eqn:A; simpl.
  - intros H; injection H as _ <-. now apply link_action_error in A.
  - discriminate.
  - unfold dict_item. destruct (dict_get bytes_eqb objects id) as [o|]; simpl.
    + destruct (foldM _ _ st) as [e0|s] eqn:F; intros H; [|discriminate].
      injection H as _ <-. right. now apply foldM_add_annot_error in F.
    + intros H; injection H as _ <-. auto.
Qed.

Lemma synthesize_error links : forall st log e,
  foldP (add_link_annots pages objects pdf_pages) links st = (log, inl e) ->
  e = ValueError \/ e = KeyError.
Proof.
  induction links as [|x links IH]; intros st log e H; cbn [foldP] in H; [discriminate|].
  unfold pbind in H.
  destruct (add_link_annots pages objects pdf_pages st x) as [l1 [e1|s1]] eqn:E.
  - injection H as _ <-. now apply add_link_annots_error in E.
  - destruct (foldP _ links s1) as [l2 r2] eqn:F. injection H as _ ->.
    now apply IH in F.
Qed.

(** What a step of the synthesis prints when it does not raise. *)
Lemma add_link_annots_log st link log st' :
  add_link_annots pages objects pdf_pages st link = (log, inr st') ->
  log = if dict_mem bytes_eqb objects (fst link) && starts_with (b "#") (snd link)
           && negb (dict_mem bytes_eqb objects (destination_id (snd link)))
        then [Print (b "warn: link target not found: " ++ snd link)]
        else [].
Proof.
  destruct link as [id href]. cbn [fst snd]. unfold add_link_annots.
  destruct (dict_mem bytes_eqb objects id); cbn [negb andb];
    [|now intros H; injection H as <- _].
  assert (T : forall act : action,
            lift (link_object <- dict_item bytes_eqb objects id ;;
                  foldM (add_annot pages act link_object) (page_locs link_object) st)
            = (log, inr st') -> log = []).
  { intros act. unfold lift. intros H. now injection H as <- _. }
  unfold link_action.
  destruct (starts_with (b "#") href); cbn [andb].
  - unfold dict_mem.
    destruct (dict_get bytes_eqb objects (destination_id href)) as [target|]; cbn [negb].
    + destruct (max_y (page_locs target)) as [e|pl]; [discriminate|]. cbn [bind].
      unfold dict_item at 1.
      destruct (dict_get N.eqb pages (loc_page pl)) as [p|]; [|discriminate].
      unfold ret at 1. cbn [bind]. unfold dict_item at 1.
      destruct (dict_get N.eqb pdf_pages (page_number p)) as [pp|]; [|discriminate].
      unfold ret at 1. cbn [bind]. unfold ret at 1. unfold lift at 1. cbn [pbind].
      destruct (lift _) as [l r] eqn:L. rewrite app_nil_l. intros H.
      injection H as -> ->. eapply T; eauto.
    + cbn. intros H. now injection H as <- _.
  - unfold ret at 1. unfold lift at 1. cbn [pbind].
    destruct (lift _) as [l r] eqn:L. rewrite app_nil_l. intros H.
    injection H as -> ->. eapply T; eauto.
Qed.

Lemma synthesize_log links : forall st log st',
  foldP (add_link_annots pages objects pdf_pages) links st = (log, inr st') ->
  log = map (fun l => Print (b "warn: link target not found: " ++ snd l))
          (filter (fun l => dict_mem bytes_eqb objects (fst l)
                            && starts_with (b "#") (snd l)
                            && negb (dict_mem bytes_eqb objects (destination_id (snd l))))
                  links).
Proof.
  induction links as [|x links IH]; intros st log st' H; cbn [foldP] in H.
  - now injection H as <- _.
  - unfold pbind in H.
    destruct (add_link_annots pages objects pdf_pages st x) as [l1 [e1|s1]] eqn:E;
      [discriminate|].
    destruct (foldP _ links s1) as [l2 r2] eqn:F. injection H as <- ->.
    apply add_link_annots_log in E. apply IH in F. subst l1 l2. cbn [filter].
    destruct (_ && _); reflexivity.
Qed.

End SynthesisErrors.

(** X19: what a synthesis that ends normally has printed: one warning for
    every internal link with a catalogued source and a target that is not in
    the catalogue, in the order of the links, and nothing else.
    (Lines 238-246.) *)
Theorem warnings_name_the_missing_targets
    (pages : dict N page) (objects : dict bytes object) (pdf_pages : dict N pdf_page)
    (links : dict bytes bytes) (first_id : N) (log : list event) (st : synth) :
  synthesize pages objects pdf_pages links first_id = (log, inr st) ->
  log = map (fun l => Print (b "warn: link target not found: " ++ snd l))
          (filter (fun l => dict_mem bytes_eqb objects (fst l)
                            && starts_with (b "#") (snd l)
                            && negb (dict_mem bytes_eqb objects (destination_id (snd l))))
                  links).
Proof. apply synthesize_log. Qed.

Lemma warnings_name_the_missing_targets_witness :
  exists st,
    synthesize one_page placed_objects one_pdf_page
      [(b "a", b "#zz"); (b "q", b "#yy"); (b "t", b "#a")] 7
    = ([Print (b "warn: link target not found: #zz")], inr st).
Proof.
  destruct (synthesize one_page placed_objects one_pdf_page
              [(b "a", b "#zz"); (b "q", b "#yy"); (b "t", b "#a")] 7)
    as [log [e|st]] eqn:E; [vm_compute in E; discriminate|].
  exists st. f_equal.
  rewrite (warnings_name_the_missing_targets _ _ _ _ _ _ _ E). vm_compute. reflexivity.
Defined.

(** ** The whole program, continued *)

Lemma pbind_error {A B} (m : prog A) (f : A -> prog B) log e :
  pbind m f = (log, inl e) ->
  (exists l, m = (l, inl e)) \/ exists x l', f x = (l', inl e).
Proof.
  unfold pbind. destruct m as [l [e'|x]].
  - intros H; injection H as _ <-. eauto.
  - destruct (f x) as [l' r] eqn:F. intros H; injection H as _ ->. eauto.
Qed.


Lemma check_error failed msg0 l msg :
  check failed msg0 = (l, inl (Error msg)) -> msg = msg0.
Proof.
  unfold check, lift. destruct failed; [|discriminate]. intros H. now injection H as _ <-.
Qed.


Ltac stage_error H :=
  first
    [ apply check_error in H; subst; solve [eauto 12]
    | exfalso; unfold lift, emit in H; injection H as _ H;
      first
        [ discriminate H
        | apply document_scaling_error in H; intuition discriminate
        | apply load_pages_error in H; intuition discriminate
        | apply load_objects_error in H; discriminate
        | apply first_free_id_error in H; discriminate
        | apply edit_qdf_error in H; intuition discriminate ]
    | exfalso; apply synthesize_error in H; intuition discriminate ].

(** X20: the only messages that the handler at the end of the file prints
    are those of the checks of the tools, of the command line and of the
    processes. No other stage raises an [Error]: a failure while the SVG or
    the QDF is read or edited reaches the top as another exception.
    (Lines 30-40, 112-113, 172-173, 194-195, 321-322, 342-343, 346-351.) *)
Theorem reported_errors_come_from_the_checks
    (w : world) (log : list event) (msg : bytes) :
  main w = (log, inl (Error msg)) ->
  dunder_main w = (log ++ [Print (b "error: " ++ msg)], Exit1)
  /\ (msg = b "qpdf is missing - please install it before retrying"
      \/ msg = b "inkscape is missing - please install it before retrying"
      \/ msg = b "Usage: " ++ hd [] (argv w) ++ b " input.svg output.pdf [inkscape cli flags ...]"
      \/ msg = b "inkscape: " ++ proc_err (inkscape_query w)
      \/ msg = b "inkscape: " ++ proc_err (inkscape_export w)
      \/ msg = proc_err (qpdf_to_qdf w)
      \/ (exists q, msg = b "cannot fix the qdf output " ++ proc_err (fix_qdf w q))
      \/ (exists q, msg = proc_err (qpdf_write w q))).
Proof.
  intros H. split; [unfold dunder_main; now rewrite H|].
  unfold main in H.
  repeat (apply pbind_error in H;
          destruct H as [[? H]|(? & ? & H)]; [stage_error H|cbv beta zeta in H]).
  stage_error H.
Qed.

Lemma reported_errors_come_from_the_checks_witness :
  dunder_main
    (World true true true [b "svglinkify"; b "in.svg"; b "out.pdf"] units_svg
       (Proc [] (b "ERROR: no display") 1) (Proc [] [] 0) (Proc [] [] 0) sample_qdf
       (fun q => Proc q [] 0) (fun _ => Proc [] [] 0))
  = ([Popen InkscapeQuery; Print (b "error: inkscape: ERROR: no display")], Exit1).
Proof.
  apply (reported_errors_come_from_the_checks
           (World true true true [b "svglinkify"; b "in.svg"; b "out.pdf"] units_svg
              (Proc [] (b "ERROR: no display") 1) (Proc [] [] 0) (Proc [] [] 0) sample_qdf
              (fun q => Proc q [] 0) (fun _ => Proc [] [] 0))
           [Popen InkscapeQuery] (b "inkscape: ERROR: no display")).
  vm_compute. reflexivity.
Defined.



(** X22: the tools and the command line are checked, in this order, before
    anything is read or started: a missing [qpdf] or [fix-qdf] is reported
    whatever else is wrong, then a missing [inkscape], then a command line
    with less than two arguments. (Lines 30-40 and 346-351.) *)
Theorem tools_are_checked_first (w : world) :
  (has_qpdf w = false \/ has_fix_qdf w = false ->
   dunder_main w
   = ([Print (b "error: qpdf is missing - please install it before retrying")], Exit1))
  /\ (has_qpdf w = true -> has_fix_qdf w = true -> has_inkscape w = false ->
      dunder_main w
      = ([Print (b "error: inkscape is missing - please install it before retrying")],
         Exit1))
  /\ (has_qpdf w = true -> has_fix_qdf w = true -> has_inkscape w = true ->
      (List.length (argv w) <? 3)%nat = true ->
      dunder_main w
      = ([Print (b "error: Usage: " ++ hd [] (argv w)
                 ++ b " input.svg output.pdf [inkscape cli flags ...]")], Exit1)).
Proof.
  unfold dunder_main, main. split; [|split].
  - intros H.
    assert (C : negb (has_qpdf w) || negb (has_fix_qdf w) = true)
      by (destruct H as [-> | ->]; [reflexivity|apply orb_true_r]).
    rewrite C. reflexivity.
  - intros -> -> ->. reflexivity.
  - intros -> -> -> ->. reflexivity.
Qed.

Lemma tools_are_checked_first_witness :
  dunder_main
    (World true false true [b "svglinkify"] [] (Proc [] [] 0) (Proc [] [] 0) (Proc [] [] 0)
       [] (fun q => Proc q [] 0) (fun _ => Proc [] [] 0))
  = ([Print (b "error: qpdf is missing - please install it before retrying")], Exit1).
Proof.
  apply (tools_are_checked_first
           (World true false true [b "svglinkify"] [] (Proc [] [] 0) (Proc [] [] 0)
              (Proc [] [] 0) [] (fun q => Proc q [] 0) (fun _ => Proc [] [] 0))).
  right. reflexivity.
Defined.

(** ** The deleted annotations in the edit *)

(** X23: the set of annotations found for deletion has no influence on the
    edit: the only use of it is on a text that is still empty, so two runs
    of the edit that differ in that set give the same file or the same
    exception. (Lines 204-211 and 292-293.) *)
Theorem stale_ids_play_no_part
    (deleted deleted' : list (N * N)) (page_annots : dict N (list N))
    (annot_objects : list bytes) (qdf : bytes) :
  edit_qdf deleted page_annots annot_objects qdf
  = edit_qdf deleted' page_annots annot_objects qdf.
Proof.
  unfold edit_qdf, rewrite_pages.
  rewrite (re_sub_fnM_pure _ _
             (fun m => match get_list page_annots (int_of_digits (grp m 1)) with
                       | [] => re_sub_fn annots_re (fun _ => None) (group0 m)
                       | id :: ids =>
                           re_sub open_re
                             (b "<<" ++ nl :: b "/Annots [ "
                              ++ strip (List.concat (map ref_line (id :: ids))) ++ b " ]")
                             (re_sub_fn annots_re (fun _ => None) (group0 m))
                       end))
    by (intros m; now rewrite replace_annots_pure).
  symmetry.
  rewrite (re_sub_fnM_pure _ _
             (fun m => match get_list page_annots (int_of_digits (grp m 1)) with
                       | [] => re_sub_fn annots_re (fun _ => None) (group0 m)
                       | id :: ids =>
                           re_sub open_re
                             (b "<<" ++ nl :: b "/Annots [ "
                              ++ strip (List.concat (map ref_line (id :: ids))) ++ b " ]")
                             (re_sub_fn annots_re (fun _ => None) (group0 m))
                       end))
    by (intros m; now rewrite replace_annots_pure).
  reflexivity.
Qed.

(** ** Placement and synthesis together *)

Lemma dict_get_map {K V} (eqb : K -> K -> bool) (f : V -> V) (d : dict K V) k :
  dict_get eqb (map (fun kv => (fst kv, f (snd kv))) d) k = option_map f (dict_get eqb d k).
Proof.
  induction d as [|[k0 v0] d IH]; cbn [map dict_get fst snd option_map]; [reflexivity|].
  destruct (eqb k k0); [reflexivity|exact IH].
Qed.

Lemma placement_get pages objects id o' :
  dict_get bytes_eqb (placement pages objects) id = Some o' ->
  exists o, dict_get bytes_eqb objects id = Some o
            /\ o' = with_locs o (places (dict_values pages) o).
Proof.
  unfold placement. rewrite placement_fold.
  rewrite (dict_get_map bytes_eqb
             (fun o => with_locs o (places (dict_values pages) o))).
  destruct (dict_get bytes_eqb objects id) as [o|]; [|discriminate].
  intros H; injection H as <-. eauto.
Qed.

Lemma placement_mem pages objects id :
  dict_mem bytes_eqb (placement pages objects) id = dict_mem bytes_eqb objects id.
Proof.
  unfold dict_mem, placement. rewrite placement_fold.
  rewrite (dict_get_map bytes_eqb
             (fun o => with_locs o (places (dict_values pages) o))).
  now destruct (dict_get bytes_eqb objects id).
Qed.

(** X24: placement and synthesis fit together. When every page is stored
    under its own number and the PDF has a page object for every page, the
    synthesis over the objects that placement has placed ends without
    exception, provided that the target of every internal link between
    catalogued objects intersects a page. (Lines 129-138 and 238-282.) *)
Theorem placed_objects_synthesize
    (pages : dict N page) (objects : dict bytes object) (pdf_pages : dict N pdf_page)
    (links : dict bytes bytes) (first_id : N) :
  pages_ok pages ->
  (forall k o, In (k, o) objects -> page_locs o = []) ->
  (forall k p, In (k, p) pages -> dict_mem N.eqb pdf_pages k = true) ->
  (forall id href target,
     In (id, href) links ->
     dict_mem bytes_eqb objects id = true ->
     starts_with (b "#") href = true ->
     dict_get bytes_eqb objects (destination_id href) = Some target ->
     exists k p, In (k, p) pages
                 /\ intersected (page_rect p) (obj_rect target) = true) ->
  exists ws st,
    synthesize pages (placement pages objects) pdf_pages links first_id
    = (map Print ws, inr st).
Proof.
  intros OK U PP T.
  destruct (synthesize_total pages (placement pages objects) pdf_pages) with
    (links := links) (st := Synth first_id [] []) as (log & st & E).
  - intros id o' q G Hq. apply placement_get in G. destruct G as (o & G & ->).
    apply (dict_get_in _ bytes_eqb_eq) in G. cbn [with_locs page_locs] in Hq.
    rewrite (U _ _ G) in Hq. cbn [app] in Hq. unfold places in Hq.
    apply in_map_iff in Hq. destruct Hq as (p & <- & Hp).
    apply filter_In in Hp. destruct Hp as [Hp _].
    unfold dict_values in Hp. apply in_map_iff in Hp. destruct Hp as ([k p'] & <- & Hin).
    cbn [snd local_loc loc_page]. exists p'.
    destruct OK as [ND O]. pose proof (O _ _ Hin) as Nk.
    specialize (PP _ _ Hin). unfold dict_mem in PP. rewrite <- Nk in PP.
    destruct (dict_get N.eqb pdf_pages (page_number p')) as [pp|]; [|discriminate].
    exists pp. split; [|reflexivity]. exact (pages_ok_get pages k p' (conj ND O) Hin).
  - intros id href target' Hin M S G. rewrite placement_mem in M.
    apply placement_get in G. destruct G as (target & G & ->).
    destruct (T _ _ _ Hin M S G) as (k & p & Hp & I).
    cbn [with_locs page_locs]. intros Z. apply app_eq_nil in Z. destruct Z as [_ Z].
    unfold places in Z. apply map_eq_nil in Z.
    assert (F : In p (filter (fun p => intersected (page_rect p) (obj_rect target))
                        (dict_values pages))).
    { apply filter_In. split; [|exact I]. unfold dict_values.
      apply in_map_iff. exists (k, p). auto. }
    now rewrite Z in F.
  - destruct (synthesize_prints _ _ _ _ _ _ _ E) as [ws ->]. eauto.
Qed.

Lemma placed_objects_synthesize_witness :
  exists ws st,
    synthesize offset_pages
      (placement offset_pages
         [(b "a", Object (b "a") 10 20 30 40 []); (b "t", Object (b "t") 95 50 10 10 [])])
      two_pdf_pages [(b "a", b "#t"); (b "t", b "http://x")] 7
    = (map Print ws, inr st).
Proof.
  apply placed_objects_synthesize.
  - split; [repeat constructor; simpl; intuition discriminate|].
    intros k p [H|[H|[]]]; injection H as <- <-; reflexivity.
  - intros k o [H|[H|[]]]; injection H as <- <-; reflexivity.
  - intros k p [H|[H|[]]]; injection H as <- <-; reflexivity.
  - intros id href target [H|[H|[]]] _ S G; injection H as <- <-; [|discriminate].
    vm_compute in G. injection G as <-.
    exists 1, (Page 1 0 0 100 100). split; [now left|vm_compute; reflexivity].
Defined.

(** ** The pages of the PDF *)


